(** * The pattern-projection engine of [src/solver.js] ([NPSolver])

    A shallow embedding of the engine and the properties its specification
    states about it.

    - JavaScript numbers are IEEE 754 binary64 values: Rocq's primitive
      [float], whose [+ - * /], [sqrt], [abs] and comparisons are the
      processor's, as JavaScript's are.  [NaN] and the signed zeros behave
      as in the source.
    - [Math.sin], [Math.log], [Math.log2], [Math.log10] and [**] are
      "implementation-approximated" in ECMA-262: the engine is parametrised
      by them (class [MathImpl]).
    - Counts that the source keeps in numbers but that are integers on every
      path ([problem.size], [problem.dimensions], [cycleCount], literals,
      colours, indices) are [Z]; they stand for JavaScript safe integers.
    - The engine's fields ([tickStack], [patternCache], [driftState],
      [cycleCount]) are threaded explicitly; a thrown exception is a
      [Throw] outcome that keeps the state reached so far. *)

From Stdlib Require Import ZArith List Bool String Ascii Lia Floats.
From Stdlib Require Import DecimalPos DecimalZ DecimalString Permutation Sorted.
From stdpp Require Import gmap strings.
Import ListNotations.

Local Open Scope Z_scope.

(** ** JavaScript numbers *)

Module Js.

Local Open Scope float_scope.

(** The number nearest to an integer (exact below 2^53). *)
Definition Z2F (z : Z) : float :=
  SF2Prim (binary_normalize prec emax z 0 false).

Definition N2F (n : nat) : float := Z2F (Z.of_nat n).

Definition neg_if (s : bool) (z : Z) : Z := if s then (- z)%Z else z.

(** ECMA-262 [ToIntegerOrInfinity]. *)
Inductive IntOrInf := Fin (z : Z) | PosInf | NegInf.

Definition ToIntegerOrInfinity (v : float) : IntOrInf :=
  match Prim2SF v with
  | S754_nan | S754_zero _ => Fin 0
  | S754_infinity s => if s then NegInf else PosInf
  | S754_finite s m e => Fin (neg_if s (Z.shiftl (Zpos m) e))
  end.

(** [Math.floor]: integral values, infinities, zeros and NaN are kept. *)
Definition Math_floor (v : float) : float :=
  match Prim2SF v with
  | S754_finite s m e =>
      if (0 <=? e)%Z then v
      else
        let q := Z.shiftl (Zpos m) e in
        if (Z.shiftl q (- e) =? Zpos m)%Z then v
        else if s then Z2F (- (q + 1)) else Z2F q
  | _ => v
  end.

Definition Math_ceil (v : float) : float := - Math_floor (- v).

Definition Math_trunc (v : float) : float :=
  if v <? 0 then Math_ceil v else Math_floor v.

(** [Math.round]: nearest integer, ties towards plus infinity; a result
    zero reached from below is the negative zero. *)
Definition Math_round (v : float) : float :=
  let r := Math_floor v in
  if v - r <? 0x1p-1 then r
  else if (v <? 0) && (r + 1 =? 0) then neg_zero else r + 1.

(** [v % 1]: the remainder has the sign of the dividend. *)
Definition rem1 (v : float) : float :=
  if is_nan v || is_infinity v then nan
  else
    let r := v - Math_trunc v in
    if r =? 0 then (if get_sign v then neg_zero else zero) else r.

Definition max2 (a b : float) : float :=
  if is_nan a || is_nan b then nan
  else if a <? b then b
  else if b <? a then a
  else if get_sign a then b else a.

Definition min2 (a b : float) : float :=
  if is_nan a || is_nan b then nan
  else if a <? b then a
  else if b <? a then b
  else if get_sign a then a else b.

(** [Math.max(...l)] and [Math.min(...l)]. *)
Definition Math_max (l : list float) : float := fold_left max2 l neg_infinity.
Definition Math_min (l : list float) : float := fold_left min2 l infinity.

(** [l.indexOf(v)]: strict equality, so NaN is never found. *)
Fixpoint indexOf_from (l : list float) (v : float) (i : Z) : Z :=
  match l with
  | [] => (-1)%Z
  | w :: l' => if w =? v then i else indexOf_from l' v (i + 1)%Z
  end.

Definition indexOf (l : list float) (v : float) : Z := indexOf_from l v 0.

(** [l[i]] read as a number: a missing element is [undefined], which
    arithmetic turns into NaN. *)
Definition get (l : list float) (i : nat) : float := nth i l nan.

(** [l[v]] for a number [v] used as a property key. *)
Definition get_at (l : list float) (v : float) : float :=
  if is_nan v then nan
  else match ToIntegerOrInfinity v with
       | Fin k =>
           if (0 <=? k)%Z && (Z2F k =? v) then get l (Z.to_nat k) else nan
       | _ => nan
       end.

(** [l.slice(0, v)]. *)
Definition slice0 {A} (l : list A) (v : float) : list A :=
  match ToIntegerOrInfinity v with
  | NegInf => []
  | PosInf => l
  | Fin k =>
      if (k <? 0)%Z
      then firstn (Z.to_nat (Z.max (Z.of_nat (length l) + k) 0)) l
      else firstn (Z.to_nat k) l
  end.

(** [l.slice(-k)] for a literal [k]. *)
Definition slice_last {A} (k : nat) (l : list A) : list A :=
  skipn (length l - k) l.

(** The number of rounds of [for (let i = 0; i < v; i++)].  The counter
    is a number: it cannot pass 2^53, so a larger bound is never
    reached. *)
Inductive LoopBound := Rounds (n : nat) | Forever.

Definition loop_bound (v : float) : LoopBound :=
  match ToIntegerOrInfinity (Math_ceil v) with
  | Fin k => if (2 ^ 53 <? k)%Z then Forever else Rounds (Z.to_nat k)
  | PosInf => Forever
  | NegInf => Rounds 0
  end.

(** [Array.prototype.sort(cmp)]: the sort is stable, and a comparator
    result that is NaN counts as zero.  For a consistent comparator every
    stable sort returns this list.  A comparator that is not consistent
    (as [b.value - a.value] is when one value is NaN among different
    numbers) leaves the order to the engine: this list is then one of the
    orders the standard allows, not the order of a given engine, and the
    properties that depend on the order assume values that are not NaN. *)
Section Sort.
Context {A : Type} (cmp : A -> A -> float).

Fixpoint insert_sorted (a : A) (l : list A) : list A :=
  match l with
  | [] => [a]
  | b :: l' => if cmp a b <? 0 then a :: b :: l' else b :: insert_sorted a l'
  end.

Definition sort (l : list A) : list A :=
  fold_left (fun acc a => insert_sorted a acc) l [].
End Sort.

(** [String(z)] for a safe integer [z] (below 2^53 in absolute value):
    every digit is printed.  A number from 10^21 on is printed with an
    exponent, which this function does not do.  [parseInt(s, 10)]
    follows. *)
Definition toString (z : Z) : string := NilZero.string_of_int (Z.to_int z).

Definition is_space (c : ascii) : bool :=
  match c with
  | " "%char | "009"%char | "010"%char | "011"%char | "012"%char
  | "013"%char => true
  | _ => false
  end.

Definition digit_of (c : ascii) : option Z :=
  let n := Z.of_nat (nat_of_ascii c) in
  if (48 <=? n)%Z && (n <=? 57)%Z then Some (n - 48)%Z else None.

Fixpoint skip_spaces (s : string) : string :=
  match s with
  | String c s' => if is_space c then skip_spaces s' else s
  | EmptyString => s
  end.

Fixpoint digits (s : string) (acc : option Z) : option Z :=
  match s with
  | String c s' =>
      match digit_of c with
      | Some d => digits s' (Some (10 * default 0%Z acc + d)%Z)
      | None => acc
      end
  | EmptyString => acc
  end.

(** [None] stands for NaN. *)
Definition parseInt10 (s : string) : option Z :=
  match skip_spaces s with
  | String "-" s' => option_map Z.opp (digits s' None)
  | String "+" s' => digits s' None
  | s' => digits s' None
  end.

(** [s.split('-')]. *)
Fixpoint split_dash_aux (s : string) (cur : string) : list string :=
  match s with
  | EmptyString => [cur]
  | String c s' =>
      if Ascii.eqb c "-" then cur :: split_dash_aux s' EmptyString
      else split_dash_aux s' (cur ++ String c EmptyString)
  end.

Definition split_dash (s : string) : list string := split_dash_aux s EmptyString.

End Js.

(** [Math]'s implementation-approximated functions.  ECMA-262 fixes
    [Math.log2(1)] to be [+0]. *)
Class MathImpl := {
  Math_sin : float -> float;
  Math_log : float -> float;
  Math_log2 : float -> float;
  Math_log10 : float -> float;
  Math_pow : float -> float -> float;
  Math_log2_one : Math_log2 1%float = 0%float
}.


(** ** Data model *)

Import Js.
Local Open Scope float_scope.

(** [this.PHI] and [this.DIMENSIONS]: set by the constructor, never
    assigned again.  [PHI] is the literal 1.618033988749895. *)
Definition PHI : float := 0x1.9e3779b97f4a8p+0.
Definition DIMENSIONS : Z := 11.

(** The literals 0.1, 0.2 and 0.001 of the source, as the numbers they
    denote. *)
Definition f0_1 : float := 0x1.999999999999ap-4.
Definition f0_2 : float := 0x1.999999999999ap-3.
Definition f0_001 : float := 0x1.0624dd2f1a9fcp-10.

Record City := { city_x : float; city_y : float }.

(** A per-dimension constraint object: [{min, max}] or
    [{discrete, options | count}]; an absent property is [None]. *)
Record Constraint := {
  c_min : option float;
  c_max : option float;
  c_discrete : bool;
  c_options : option (list float);
  c_count : option float
}.

(** The fields a strategy destructures from the problem object. *)
Inductive Payload :=
| Tour (cities : list City)
| Coloring (graph : list (list Z)) (maxColors : Z)
| Satisfaction (clauses : list (list Z)) (variables : Z)
| SubsetSelection (numbers : list float) (target : float).

(** The problem object.  [dimensions = None] is an absent property;
    [constraints = []] an absent (or empty) constraint list. *)
Record Problem := {
  type : string;
  size : Z;
  dimensions : option Z;
  constraints : list (option Constraint);
  payload : Payload
}.

Record Projection := {
  coordinates : list float;
  value : float
}.

Record Correlation := {
  corr_dimensions : nat * nat;
  correlation : float
}.

Record Patterns := {
  primaryDimensions : list (nat * nat);
  correlationStrengths : list float;
  vectorProjections : list Projection
}.

Record Space := {
  sp_dimensions : Z;
  sp_size : Z;
  sp_constraints : list (option Constraint);
  vectors : list (list float)
}.

Inductive Solution :=
| TourSolution (path : list nat) (distance : float)
| ColoringSolution (coloring : list Z) (colorCount : float)
| SatSolution (assignment : list bool) (satisfied : bool)
| SubsetSolution (subset : list nat) (sum : float) (target : float)
    (difference : float).

(** The engine instance. *)
Record NPSolver := {
  tickStack : list (list float);
  patternCache : gmap string Patterns;
  driftState : float;
  cycleCount : Z
}.

(** [new NPSolver()]. *)
Definition new_NPSolver : NPSolver := {|
  tickStack := repeat [] (Z.to_nat DIMENSIONS);
  patternCache := ∅;
  driftState := 0;
  cycleCount := 0
|}.

(** ** Outcomes *)

Inductive JsError :=
| RangeError
| TypeError
| UnsupportedType (t : string).

(** A call returns, throws, or never returns. *)
Inductive outcome (A : Type) :=
| Ok (a : A)
| Throw (e : JsError)
| Hang.
Arguments Ok {A} a.
Arguments Throw {A} e.
Arguments Hang {A}.

Definition obind {A B} (o : outcome A) (k : A -> outcome B) : outcome B :=
  match o with
  | Ok a => k a
  | Throw e => Throw e
  | Hang => Hang
  end.

Notation "'let?' x := o 'in' k" := (obind o (fun x => k))
  (at level 10, x pattern, o at level 100, k at level 200).

(** [for (let i = from; i < from + n; i++) body], stopping at a throw. *)
Fixpoint for_each {St} (body : nat -> St -> outcome St) (from n : nat)
    (s : St) : outcome St :=
  match n with
  | O => Ok s
  | S n' => let? s' := body from s in for_each body (S from) n' s'
  end.

(** [new Float64Array(d)]: a negative length is a RangeError.  The upper
    limit of the length (2^53 - 1 bytes in the standard, less in every
    engine) is not modelled: a property that says an allocation succeeds
    assumes a small length. *)
Definition new_Float64Array (d : Z) : outcome (list float) :=
  if (d <? 0)%Z then Throw RangeError else Ok (repeat 0 (Z.to_nat d)).

(** [Array(n).fill(v)]: a length outside [0, 2^32) is a RangeError. *)
Definition Array_fill {A} (n : Z) (v : A) : outcome (list A) :=
  if (0 <=? n)%Z && (n <? 2 ^ 32)%Z then Ok (repeat v (Z.to_nat n))
  else Throw RangeError.

(** ** The engine *)

Section Engine.
Context {M : MathImpl}.

(** [problem.dimensions || this.DIMENSIONS]: an absent or zero dimension
    count is falsy, so the default is used. *)
Definition dimensions_or_default (problem : Problem) : Z :=
  match dimensions problem with
  | Some d => if (d =? 0)%Z then DIMENSIONS else d
  | None => DIMENSIONS
  end.

Definition _applyConstraint (v : float) (constraint : Constraint) : float :=
  match c_min constraint, c_max constraint with
  | Some mn, Some mx => mn + v * (mx - mn)
  | _, _ =>
      if c_discrete constraint then
        match c_options constraint with
        | Some options =>
            let index := Math_floor (v * N2F (length options)) in
            get_at options index
        | None =>
            match c_count constraint with
            | Some count => Math_floor (v * count)
            | None => nan
            end
        end
      else v
  end.

Definition _generateSolutionVector (problem : Problem) (seed : nat)
  : outcome (list float) :=
  let? vector := new_Float64Array (dimensions_or_default problem) in
  let phaseFactor := rem1 (N2F seed * PHI) in
  Ok (fold_left
        (fun vector i =>
           let phase := rem1 (N2F (i + 1) * phaseFactor * PHI) in
           let vector := <[i := phase]> vector in
           match constraints problem !! i with
           | Some (Some c) => <[i := _applyConstraint (get vector i) c]> vector
           | _ => vector
           end)
        (seq 0 (length vector)) vector).

Definition _initializeSolutionSpace (problem : Problem) : outcome Space :=
  let vectorCount := Math_ceil (Math_log2 (Z2F (size problem)) * PHI) in
  let push i vs :=
    let? vector := _generateSolutionVector problem i in Ok (vs ++ [vector]) in
  match loop_bound vectorCount with
  | Forever => let? _ := _generateSolutionVector problem 0 in Hang
  | Rounds n =>
      let? vs := for_each push 0 n [] in
      Ok {| sp_dimensions := dimensions_or_default problem;
            sp_size := size problem;
            sp_constraints := constraints problem;
            vectors := vs |}
  end.

Definition _calculateDriftFactor (problem : Problem)
    (vectorIndex dimensionIndex : nat) : float :=
  let base := rem1 (N2F vectorIndex * PHI + N2F dimensionIndex) in
  let sizeFactor := 1 / (1 + Math_log10 (Z2F (size problem))) in
  base * sizeFactor * f0_2.

(** [stack.push(v); if (stack.length > 100) stack.shift()]. *)
Definition push_shift (stack : list float) (v : float) : list float :=
  let stack := stack ++ [v] in
  if (100 <? length stack)%nat then tail stack else stack.

(** The constructor gives [tickStack] its 11 histories, so
    [tickStack[i]] exists for every [i] of the loop. *)
Definition _pushToTickStack (vector : list float) (ts : list (list float))
  : list (list float) :=
  fold_left
    (fun ts i => alter (fun stack => push_shift stack (get vector i)) i ts)
    (seq 0 (Nat.min (length vector) (Z.to_nat DIMENSIONS))) ts.

(** One drifted vector: a fresh array of the input's length. *)
Definition drift_vector (problem : Problem) (driftState : float) (i : nat)
    (vector : list float) : list float :=
  fold_left
    (fun driftedVector j =>
       let driftFactor := _calculateDriftFactor problem i j in
       let driftedVector :=
         <[j := get vector j + (get vector j * driftFactor * driftState)]>
           driftedVector in
       <[j := Math_max [0; Math_min [1; get driftedVector j]]]> driftedVector)
    (seq 0 (length vector)) (repeat 0 (length vector)).

Definition _applyQuantumDrift (space : Space) (problem : Problem)
    (this : NPSolver) : Space * NPSolver :=
  let cycleCount' := (cycleCount this + 1)%Z in
  let driftState' := Math_sin (Z2F cycleCount' * PHI) * f0_1 in
  let '(vs, ts) :=
    fold_left
      (fun '(vs, ts) i =>
         let vector := nth i vs [] in
         let driftedVector := drift_vector problem driftState' i vector in
         (<[i := driftedVector]> vs, _pushToTickStack driftedVector ts))
      (seq 0 (length (vectors space)))
      (vectors space, tickStack this) in
  ({| sp_dimensions := sp_dimensions space;
      sp_size := sp_size space;
      sp_constraints := sp_constraints space;
      vectors := vs |},
   {| tickStack := ts;
      patternCache := patternCache this;
      driftState := driftState';
      cycleCount := cycleCount' |}).

Definition _calculateCorrelation (series1 series2 : list float) : float :=
  if negb (length series1 =? length series2)%nat || (length series1 =? 0)%nat
  then 0
  else
    let n := N2F (length series1) in
    let '(sum1, sum2, sum1Sq, sum2Sq, pSum) :=
      fold_left
        (fun '(sum1, sum2, sum1Sq, sum2Sq, pSum) i =>
           (sum1 + get series1 i,
            sum2 + get series2 i,
            sum1Sq + Math_pow (get series1 i) 2,
            sum2Sq + Math_pow (get series2 i) 2,
            pSum + get series1 i * get series2 i))
        (seq 0 (length series1)) (0, 0, 0, 0, 0) in
    let num := pSum - (sum1 * sum2 / n) in
    let den :=
      sqrt ((sum1Sq - Math_pow sum1 2 / n) * (sum2Sq - Math_pow sum2 2 / n)) in
    if den =? 0 then 0 else num / den.

Definition _calculateDimensionalCorrelations (this : NPSolver)
  : list Correlation :=
  let D := Z.to_nat DIMENSIONS in
  flat_map
    (fun i =>
       flat_map
         (fun j =>
            let dim1 := nth i (tickStack this) [] in
            let dim2 := nth j (tickStack this) [] in
            if (10 <? length dim1)%nat && (10 <? length dim2)%nat
            then [{| corr_dimensions := (i, j);
                     correlation :=
                       _calculateCorrelation (slice_last 10 dim1)
                                             (slice_last 10 dim2) |}]
            else [])
         (seq (i + 1) (D - (i + 1))))
    (seq 0 (D - 1)).

Definition _projectVectorOntoPatternSpace (vector : list float)
    (patterns : Patterns) : Projection :=
  fold_left
    (fun projection i =>
       let '(dim1, dim2) := nth i (primaryDimensions patterns) (0, 0)%nat in
       let strength := abs (get (correlationStrengths patterns) i) in
       let coord := (get vector dim1 + get vector dim2) / 2 * strength in
       {| coordinates := coordinates projection ++ [coord];
          value := value projection + coord * Math_pow PHI (N2F i) |})
    (seq 0 (length (primaryDimensions patterns)))
    {| coordinates := []; value := 0 |}.

(** The template string [`${type}-${size}-${dimensions || DIMENSIONS}`]. *)
Definition _generateProblemKey (problem : Problem) : string :=
  (type problem ++ "-" ++ toString (size problem) ++ "-"
     ++ toString (dimensions_or_default problem))%string.

(** The key parsed back is the key of [problem] itself; the cached
    pattern is not looked at. *)
Definition _isPatternValid (pattern : Patterns) (problem : Problem) : bool :=
  let cachedKey := _generateProblemKey problem in
  let parts := split_dash cachedKey in
  let cachedType := parts !! 0%nat in
  let cachedSize :=
    match parts !! 1%nat with
    | Some cachedSizeStr =>
        match parseInt10 cachedSizeStr with
        | Some z => Z2F z
        | None => nan
        end
    | None => nan
    end in
  match cachedType with
  | Some t => String.eqb t (type problem)
  | None => false
  end
  && (abs (cachedSize - Z2F (size problem)) / Z2F (size problem) <? f0_2).

(** Lines 178-185: the cache entry that is returned, if any. *)
Definition cached_pattern (problem : Problem) (this : NPSolver)
  : option Patterns :=
  match patternCache this !! _generateProblemKey problem with
  | Some cachedPattern =>
      if _isPatternValid cachedPattern problem then Some cachedPattern
      else None
  | None => None
  end.

(** Lines 187-204: correlations of the histories, the three strongest,
    and the projection of every vector. *)
Definition analyze (space : Space) (this : NPSolver) : Patterns :=
  let correlations := _calculateDimensionalCorrelations this in
  let correlations :=
    sort (fun a b => abs (correlation b) - abs (correlation a)) correlations in
  let top := firstn 3 correlations in
  let patterns := {| primaryDimensions := map corr_dimensions top;
                     correlationStrengths := map correlation top;
                     vectorProjections := [] |} in
  fold_left
    (fun patterns vector =>
       let projection := _projectVectorOntoPatternSpace vector patterns in
       {| primaryDimensions := primaryDimensions patterns;
          correlationStrengths := correlationStrengths patterns;
          vectorProjections := vectorProjections patterns ++ [projection] |})
    (vectors space) patterns.

Definition _extractPatterns (space : Space) (problem : Problem)
    (this : NPSolver) : Patterns * NPSolver :=
  match cached_pattern problem this with
  | Some cachedPattern => (cachedPattern, this)
  | None =>
      let patterns := analyze space this in
      (patterns,
       {| tickStack := tickStack this;
          patternCache :=
            <[_generateProblemKey problem := patterns]> (patternCache this);
          driftState := driftState this;
          cycleCount := cycleCount this |})
  end.

End Engine.

(** ** Strategies *)

Section Strategies.
Context {M : MathImpl}.

(** [proj.coordinates[k]]: a missing coordinate is [undefined], NaN in
    the arithmetic that follows. *)
Definition coord (proj : Projection) (k : nat) : float :=
  get (coordinates proj) k.

Definition _calculateDistance (point1 point2 : City) : float :=
  let dx := city_x point1 - city_x point2 in
  let dy := city_y point1 - city_y point2 in
  sqrt (dx * dx + dy * dy).

(** [cityOrder] only holds indices of [cities]; the default city of the
    lookups is never read. *)
Definition city_at (cities : list City) (k : nat) : City :=
  nth k cities {| city_x := nan; city_y := nan |}.

Definition _solveTSP (projections : list Projection) (problem : Problem)
  : outcome Solution :=
  match payload problem with
  | Tour cities =>
      let n := length cities in
      let cityOrder := seq 0 n in
      let orderValues :=
        imap
          (fun i city =>
             (city,
              fold_left
                (fun v proj =>
                   let projValue :=
                     rem1 (coord proj 0 * N2F (i + 1) + coord proj 1 * N2F city) in
                   v + projValue)
                projections 0))
          cityOrder in
      let orderValues := sort (fun a b => snd a - snd b) orderValues in
      let cityOrder := map fst orderValues in
      let totalDistance :=
        fold_left
          (fun totalDistance i =>
             let city1 := city_at cities (nth i cityOrder 0%nat) in
             let city2 :=
               city_at cities (nth ((i + 1) mod n) cityOrder 0%nat) in
             totalDistance + _calculateDistance city1 city2)
          (seq 0 n) 0 in
      Ok (TourSolution cityOrder totalDistance)
  | _ => Throw TypeError
  end.

(** [graph[i][j] === 1]. *)
Definition adjacent (graph : list (list Z)) (i j : nat) : bool :=
  match nth i graph [] !! j with
  | Some e => (e =? 1)%Z
  | None => false
  end.

(** The score of one colour for node [i] (lines 406-417). *)
Definition color_value (projections : list Projection)
    (graph : list (list Z)) (coloring : list Z) (i color : nat) : float :=
  let v :=
    fold_left
      (fun v proj =>
         let projValue :=
           rem1 (coord proj 0 * N2F i + coord proj 1 * N2F color) in
         v + projValue)
      projections 0 in
  fold_left
    (fun v j =>
       if adjacent graph i j && (nth j coloring 0%Z =? Z.of_nat color)%Z
       then v + 100 else v)
    (seq 0 (length graph)) v.

(** [Math.min(...nodeValues)] and [Math.max(...coloring)] pass one
    argument for each element; the engine's limit on the arguments of a
    call is not modelled: a property that says the strategy returns assumes
    small counts. *)
Definition _solveGraphColoring (projections : list Projection)
    (problem : Problem) : outcome Solution :=
  match payload problem with
  | Coloring graph maxColors =>
      let n := length graph in
      let? coloring :=
        for_each
          (fun i coloring =>
             let? nodeValues := Array_fill maxColors 0 in
             let nodeValues :=
               fold_left
                 (fun nodeValues color =>
                    <[color := color_value projections graph coloring i color]>
                      nodeValues)
                 (seq 0 (Z.to_nat maxColors)) nodeValues in
             Ok (<[i := indexOf nodeValues (Math_min nodeValues)]> coloring))
          0 n (repeat 0%Z n) in
      Ok (ColoringSolution coloring (Math_max (map Z2F coloring) + 1))
  | _ => Throw TypeError
  end.

(** The two scores of variable [i] (lines 442-464). *)
Definition sat_scores (projections : list Projection)
    (clauses : list (list Z)) (i : nat) : float * float :=
  let scores :=
    fold_left
      (fun '(trueValue, falseValue) proj =>
         (trueValue + rem1 (coord proj 0 * N2F (i + 1)),
          falseValue + rem1 (coord proj 1 * N2F (i + 1))))
      projections (0, 0) in
  fold_left
    (fun scores clause =>
       fold_left
         (fun '(trueValue, falseValue) literal =>
            let variable := (Z.abs literal - 1)%Z in
            let isPositive := (0 <? literal)%Z in
            if (variable =? Z.of_nat i)%Z then
              if isPositive then (trueValue - f0_1, falseValue)
              else (trueValue, falseValue - f0_1)
            else (trueValue, falseValue))
         clause scores)
    clauses scores.

(** [assignment[variable] === isPositive]; an index outside the array
    reads [undefined]. *)
Definition literal_holds (assignment : list bool) (literal : Z) : bool :=
  let variable := (Z.abs literal - 1)%Z in
  let isPositive := (0 <? literal)%Z in
  if (variable <? 0)%Z then false
  else match assignment !! Z.to_nat variable with
       | Some b => Bool.eqb b isPositive
       | None => false
       end.

Definition _solveSAT (projections : list Projection) (problem : Problem)
  : outcome Solution :=
  match payload problem with
  | Satisfaction clauses variables =>
      let? assignment := Array_fill variables false in
      let assignment :=
        fold_left
          (fun assignment i =>
             let '(trueValue, falseValue) := sat_scores projections clauses i in
             <[i := trueValue <? falseValue]> assignment)
          (seq 0 (Z.to_nat variables)) assignment in
      let satisfied :=
        forallb (fun clause => existsb (literal_holds assignment) clause)
                clauses in
      Ok (SatSolution assignment satisfied)
  | _ => Throw TypeError
  end.

(** [subset[i]] read as a condition: a missing element is falsy. *)
Definition selected (subset : list bool) (i : nat) : bool := nth i subset false.

(** [subset[i] = b]: a write past the end lengthens the array. *)
Definition array_set (i : nat) (b : bool) (subset : list bool) : list bool :=
  if (i <? length subset)%nat then <[i := b]> subset
  else subset ++ repeat false (i - length subset) ++ [b].

(** The sum and the indices of the selected numbers (lines 511-518 and
    555-562). *)
Definition subset_total (numbers : list float) (subset : list bool)
  : float * list nat :=
  fold_left
    (fun '(sum, selectedIndices) i =>
       if selected subset i then (sum + get numbers i, selectedIndices ++ [i])
       else (sum, selectedIndices))
    (seq 0 (length numbers)) (0, []).

Definition _calculateSubsetSumDiff (numbers : list float) (target : float)
    (subset : list bool) : float :=
  let sum :=
    fold_left
      (fun sum i => if selected subset i then sum + get numbers i else sum)
      (seq 0 (length numbers)) 0 in
  abs (sum - target).

(** The flip loop of [_refineSubsetSum] (lines 539-552). *)
Definition refine_loop (numbers : list float) (target : float)
    (initialSubset : list bool) : list bool * float :=
  let bestSubset := initialSubset in
  let bestDiff := _calculateSubsetSumDiff numbers target bestSubset in
  fold_left
    (fun '(bestSubset, bestDiff) i =>
       let testSubset := array_set i (negb (selected bestSubset i)) bestSubset in
       let diff := _calculateSubsetSumDiff numbers target testSubset in
       if diff <? bestDiff then (testSubset, diff) else (bestSubset, bestDiff))
    (seq 0 (length numbers)) (bestSubset, bestDiff).

Definition _refineSubsetSum (numbers : list float) (target : float)
    (initialSubset : list bool) (projections : list Projection) : Solution :=
  let '(bestSubset, _) := refine_loop numbers target initialSubset in
  let '(sum, selectedIndices) := subset_total numbers bestSubset in
  SubsetSolution selectedIndices sum target (abs (sum - target)).

Definition _solveSubsetSum (projections : list Projection)
    (problem : Problem) : outcome Solution :=
  match payload problem with
  | SubsetSelection numbers target =>
      let n := length numbers in
      let subset :=
        fold_left
          (fun subset i =>
             let '(includeValue, excludeValue) :=
               fold_left
                 (fun '(includeValue, excludeValue) proj =>
                    (includeValue + rem1 (coord proj 0 * get numbers i),
                     excludeValue + rem1 (coord proj 1 * get numbers i)))
                 projections (0, 0) in
             <[i := includeValue <? excludeValue]> subset)
          (seq 0 n) (repeat false n) in
      let '(sum, selectedIndices) := subset_total numbers subset in
      if f0_001 * target <? abs (sum - target)
      then Ok (_refineSubsetSum numbers target subset projections)
      else Ok (SubsetSolution selectedIndices sum target (abs (sum - target)))
  | _ => Throw TypeError
  end.

Definition _combineSolutionFromProjections (projections : list Projection)
    (problem : Problem) : outcome Solution :=
  if String.eqb (type problem) "tsp" then _solveTSP projections problem
  else if String.eqb (type problem) "graph-coloring"
  then _solveGraphColoring projections problem
  else if String.eqb (type problem) "sat" then _solveSAT projections problem
  else if String.eqb (type problem) "subset-sum"
  then _solveSubsetSum projections problem
  else Throw (UnsupportedType (type problem)).

(** Lines 307-312: what the Collapser hands to the strategy. *)
Definition topProjections (patterns : Patterns) (problem : Problem)
  : list Projection :=
  let sortedProjections :=
    sort (fun a b => value b - value a) (vectorProjections patterns) in
  let topCount := Math_ceil (Math_log2 (Z2F (size problem))) in
  slice0 sortedProjections topCount.

Definition _collapseSolution (patterns : Patterns) (problem : Problem)
  : outcome Solution :=
  _combineSolutionFromProjections (topProjections patterns problem) problem.

End Strategies.

(** ** Verification, metrics and [solve] *)

(** [timeComplexity] is the string [`O(n^${degree})`]; the record keeps
    the number inside it. *)
Record ComplexityMetrics := {
  theoreticalComplexity : string;
  measuredComplexity : float;
  timeComplexity_degree : float
}.

Record SolveResult := {
  solution : Solution;
  isValid : bool;
  timeElapsed : float;
  problemSize : Z;
  complexityMetrics : ComplexityMetrics;
  result_driftState : float
}.

Section Solve.
Context {M : MathImpl}.

(** [new Set(path).size === cities.length && path.length === cities.length]. *)
Definition _verifyTSP (path : list nat) (cities : list City) : bool :=
  (length (remove_dups path) =? length cities)%nat
  && (length path =? length cities)%nat.

Definition _verifyGraphColoring (coloring : list Z) (graph : list (list Z))
    (maxColors : Z) : bool :=
  let n := length graph in
  forallb
    (fun i =>
       forallb
         (fun j =>
            negb (adjacent graph i j
                  && bool_decide (coloring !! i = coloring !! j)))
         (seq (i + 1) (n - (i + 1))))
    (seq 0 n)
  && (Math_max (map Z2F coloring) <? Z2F maxColors).

(** A solution of another kind than the problem's cannot come out of
    [_collapseSolution].  What the code answers for one (a TypeError,
    [false] or [undefined], as the missing fields are read) is not
    modelled: [Throw TypeError] stands for that case. *)
Definition _verifySolution (sol : Solution) (problem : Problem)
  : outcome bool :=
  if String.eqb (type problem) "tsp" then
    match sol, payload problem with
    | TourSolution path _, Tour cities => Ok (_verifyTSP path cities)
    | _, _ => Throw TypeError
    end
  else if String.eqb (type problem) "graph-coloring" then
    match sol, payload problem with
    | ColoringSolution coloring _, Coloring graph maxColors =>
        Ok (_verifyGraphColoring coloring graph maxColors)
    | _, _ => Throw TypeError
    end
  else if String.eqb (type problem) "sat" then
    match sol with
    | SatSolution _ satisfied => Ok satisfied
    | _ => Throw TypeError
    end
  else if String.eqb (type problem) "subset-sum" then
    match sol, payload problem with
    | SubsetSolution _ _ _ difference, SubsetSelection _ target =>
        Ok (difference <? f0_001 * target)
    | _, _ => Throw TypeError
    end
  else Ok false.

Definition _getTheoreticalComplexity (problemType : string) : string :=
  if String.eqb problemType "tsp" then "O(n!)"
  else if String.eqb problemType "graph-coloring" then "O(k^n)"
  else if String.eqb problemType "sat" then "O(2^n)"
  else if String.eqb problemType "subset-sum" then "O(2^n)"
  else "Unknown".

Definition _getMeasuredComplexity (size time : float) : float :=
  let normalizedTime := time / 10 in
  normalizedTime / (size * Math_log size).

Definition _getPolynomialDegree (size time : float) : float :=
  let normalizedTime := time / 10 in
  let logTime := Math_log normalizedTime in
  let logSize := Math_log size in
  let degree := logTime / logSize in
  Math_round (degree * 100) / 100.

Definition _calculateComplexityMetrics (problem : Problem)
    (timeElapsed : float) : ComplexityMetrics :=
  {| theoreticalComplexity := _getTheoreticalComplexity (type problem);
     measuredComplexity :=
       _getMeasuredComplexity (Z2F (size problem)) timeElapsed;
     timeComplexity_degree :=
       _getPolynomialDegree (Z2F (size problem)) timeElapsed |}.

(** [solve(problem)]; [startTime] and [endTime] are the two readings of
    [performance.now()].  The second component is the engine after the
    call, also when the call throws. *)
Definition solve (problem : Problem) (startTime endTime : float)
    (this : NPSolver) : outcome SolveResult * NPSolver :=
  match _initializeSolutionSpace problem with
  | Throw e => (Throw e, this)
  | Hang => (Hang, this)
  | Ok solutionSpace =>
      let '(driftedSpace, this) :=
        _applyQuantumDrift solutionSpace problem this in
      let '(patterns, this) := _extractPatterns driftedSpace problem this in
      (let? sol := _collapseSolution patterns problem in
       let timeElapsed := endTime - startTime in
       let? valid := _verifySolution sol problem in
       let metrics := _calculateComplexityMetrics problem timeElapsed in
       Ok {| solution := sol;
             isValid := valid;
             timeElapsed := timeElapsed;
             problemSize := size problem;
             complexityMetrics := metrics;
             result_driftState := driftState this |},
       this)
  end.

End Solve.

(** ** The drift step over a store

    [_applyQuantumDrift] copies the array of vectors, allocates one typed
    array per vector and writes into it.  Here the arrays live in a store
    and are reached through references, so that what the step writes, and
    where, is explicit. *)

Module Heap.

Definition loc := nat.

Inductive object :=
| Float64Array (elems : list float)
| VectorList (refs : list loc).

Abbreviation heap := (gmap loc object).

(** The space object: [vectors] is a reference to the array of vectors. *)
Record SpaceRef := {
  r_dimensions : Z;
  r_size : Z;
  r_constraints : list (option Constraint);
  r_vectors : loc
}.

Definition alloc (o : object) (h : heap) : loc * heap :=
  let l := fresh (dom h) in (l, <[l := o]> h).

(** [a[j]] and [a[j] = v] on a typed array; a write outside the array is
    ignored. *)
Definition read_number (a : loc) (j : nat) (h : heap) : outcome float :=
  match h !! a with
  | Some (Float64Array elems) => Ok (get elems j)
  | _ => Throw TypeError
  end.

Definition write_number (a : loc) (j : nat) (v : float) (h : heap)
  : outcome heap :=
  match h !! a with
  | Some (Float64Array elems) => Ok (<[a := Float64Array (<[j := v]> elems)]> h)
  | _ => Throw TypeError
  end.

Definition read_elems (a : loc) (h : heap) : outcome (list float) :=
  match h !! a with
  | Some (Float64Array elems) => Ok elems
  | _ => Throw TypeError
  end.

Definition read_refs (a : loc) (h : heap) : outcome (list loc) :=
  match h !! a with
  | Some (VectorList refs) => Ok refs
  | _ => Throw TypeError
  end.

(** [vs[i]] and [vs[i] = r] on the array of vectors, for [i] inside it. *)
Definition read_ref (vs : loc) (i : nat) (h : heap) : outcome loc :=
  let? refs := read_refs vs h in
  match refs !! i with
  | Some r => Ok r
  | None => Throw TypeError
  end.

Definition write_ref (vs : loc) (i : nat) (r : loc) (h : heap)
  : outcome heap :=
  let? refs := read_refs vs h in
  Ok (<[vs := VectorList (<[i := r]> refs)]> h).

Section Drift.
Context {M : MathImpl}.

(** Lines 125-132 for one [j]. *)
Definition drift_entry (problem : Problem) (driftState : float)
    (i : nat) (vector driftedVector : loc) (j : nat) (h : heap)
  : outcome heap :=
  let driftFactor := _calculateDriftFactor problem i j in
  let? v1 := read_number vector j h in
  let? v2 := read_number vector j h in
  let? h := write_number driftedVector j
              (v1 + (v2 * driftFactor * driftState)) h in
  let? d := read_number driftedVector j h in
  write_number driftedVector j (Math_max [0; Math_min [1; d]]) h.

(** Lines 122-137 for one [i]. *)
Definition drift_round (problem : Problem) (driftState : float)
    (vs : loc) (i : nat) (s : heap * list (list float))
  : outcome (heap * list (list float)) :=
  let '(h, ts) := s in
  let? vector := read_ref vs i h in
  let? elems := read_elems vector h in
  let '(driftedVector, h) :=
    alloc (Float64Array (repeat 0 (length elems))) h in
  let? h :=
    for_each (drift_entry problem driftState i vector driftedVector)
             0 (length elems) h in
  let? h := write_ref vs i driftedVector h in
  let? drifted := read_elems driftedVector h in
  Ok (h, _pushToTickStack drifted ts).

Definition _applyQuantumDrift (space : SpaceRef) (problem : Problem)
    (this : NPSolver) (h : heap) : outcome (SpaceRef * NPSolver * heap) :=
  let cycleCount' := (cycleCount this + 1)%Z in
  let driftState' := Math_sin (Z2F cycleCount' * PHI) * f0_1 in
  let? refs := read_refs (r_vectors space) h in
  let '(vs, h) := alloc (VectorList refs) h in
  let? s :=
    for_each (drift_round problem driftState' vs) 0 (length refs)
             (h, tickStack this) in
  let '(h, ts) := s in
  Ok ({| r_dimensions := r_dimensions space;
         r_size := r_size space;
         r_constraints := r_constraints space;
         r_vectors := vs |},
      {| tickStack := ts;
         patternCache := patternCache this;
         driftState := driftState';
         cycleCount := cycleCount' |},
      h).

(** The vectors behind a space reference, and the space they make. *)
Definition load_vectors (refs : list loc) (h : heap)
  : option (list (list float)) :=
  mapM (fun r => match h !! r with
                 | Some (Float64Array elems) => Some elems
                 | _ => None
                 end) refs.

Definition load_space (space : SpaceRef) (h : heap) : option Space :=
  match h !! r_vectors space with
  | Some (VectorList refs) =>
      match load_vectors refs h with
      | Some vs => Some {| sp_dimensions := r_dimensions space;
                           sp_size := r_size space;
                           sp_constraints := r_constraints space;
                           vectors := vs |}
      | None => None
      end
  | _ => None
  end.
End Drift.

End Heap.

(** ** A sample [Math]

    Values of an IEEE double [libm] at the arguments the examples below
    reach; elsewhere the sample returns NaN.  [**] is given for the
    exponents 0, 1 and 2.  The closed examples and witnesses below run the
    engine with this sample. *)

Definition sample_sin (v : float) : float :=
  if v =? 0x1.9e3779b97f4a8p+0 then 0x1.ff6dca56164b8p-1
  else if v =? 0x1.9e3779b97f4a8p+1 then -0x1.826541393f913p-4
  else if v =? 0x1.36a99b4b1f77ep+2 then -0x1.fade11de9dc56p-1
  else nan.

Definition sample_log (v : float) : float :=
  if v =? 1 then 0
  else if v =? 2 then 0x1.62e42fefa39efp-1
  else if v =? 20 then 0x1.7f7427b73e391p+1
  else nan.

Definition sample_log2 (v : float) : float :=
  if v =? 1 then 0
  else if v =? 2 then 1
  else if v =? 20 then 0x1.149a784bcd1b9p+2
  else nan.

Definition sample_log10 (v : float) : float :=
  if v =? 1 then 0
  else if v =? 2 then 0x1.34413509f79ffp-2
  else if v =? 20 then 0x1.4d104d427de8p+0
  else nan.

Definition sample_pow (v e : float) : float :=
  if e =? 0 then 1
  else if e =? 1 then v
  else if e =? 2 then v * v
  else nan.

#[local] Instance SampleMath : MathImpl := {|
  Math_sin := sample_sin;
  Math_log := sample_log;
  Math_log2 := sample_log2;
  Math_log10 := sample_log10;
  Math_pow := sample_pow;
  Math_log2_one := eq_refl
|}.

(** Problems used by the examples. *)

Definition sample_graph : list (list Z) := [[0; 1; 0]; [1; 0; 1]; [0; 1; 0]]%Z.

Definition problem_of (t : string) (sz : Z) (d : option Z) (pl : Payload)
  : Problem :=
  {| type := t; size := sz; dimensions := d; constraints := []; payload := pl |}.

Definition coloring20 : Problem :=
  problem_of "graph-coloring" 20 (Some 11%Z) (Coloring sample_graph 3).

Definition unit_clause (sz : Z) : Problem :=
  problem_of "sat" sz (Some 11%Z) (Satisfaction [[1%Z]] 1).

(** ** Notions used in the statements *)

Definition bounded (stack : list float) : Prop := (length stack <= 100)%nat.

(** The last 100 of the values pushed so far. *)
Definition window (values : list float) : list float :=
  skipn (length values - 100) values.

(** The history of dimension [i] after the drifted vectors [vs] were
    pushed in turn. *)
Definition history_after (vs : list (list float)) (ts : list (list float))
    (i : nat) : list float :=
  nth i (fold_left (fun ts v => _pushToTickStack v ts) vs ts) [].

(** The two sums of lines 445-448 for the first variable. *)
Definition leanings (projections : list Projection) : float * float :=
  fold_left
    (fun '(trueValue, falseValue) proj =>
       (trueValue + rem1 (coord proj 0 * N2F 1),
        falseValue + rem1 (coord proj 1 * N2F 1))%float)
    projections (0, 0)%float.

(** [d] is not above [d0]: never greater, and at most [d0] when [d0] is a
    number. *)
Definition not_above (d0 d : float) : Prop :=
  (d0 <? d) = false /\ (is_nan d0 = false -> (d <=? d0) = true).

(** What a call answers, without its timing and metrics. *)
Definition verdict (o : outcome SolveResult) : outcome (Solution * bool) :=
  match o with
  | Ok r => Ok (solution r, isValid r)
  | Throw e => Throw e
  | Hang => Hang
  end.

(** The engine after [patterns] were stored for [problem] (line 207). *)
Definition with_pattern (this : NPSolver) (problem : Problem)
    (patterns : Patterns) : NPSolver :=
  {| tickStack := tickStack this;
     patternCache := <[_generateProblemKey problem := patterns]> (patternCache this);
     driftState := driftState this;
     cycleCount := cycleCount this |}.

(** The engine after a first [solve] of the sample colouring instance. *)
Definition after_first_call : NPSolver :=
  snd (solve coloring20 0 5 new_NPSolver).

(** The engine after a second [solve] of the sample colouring instance:
    every history holds 14 values. *)
Definition after_second_call : NPSolver :=
  snd (solve coloring20 0 5 after_first_call).

(** The constraint [{min: v, max: v}]. *)
Definition pin (v : float) : option Constraint :=
  Some {| c_min := Some v; c_max := Some v; c_discrete := false;
          c_options := None; c_count := None |}.

(** The unit clause with size 2 and every dimension pinned: dimensions 1
    and 9 at 0.875, the others at 0.5. *)
Definition pinned_unit_clause : Problem :=
  {| type := "sat"; size := 2; dimensions := Some 11%Z;
     constraints :=
       [pin 0x1p-1; pin 0x1.cp-1; pin 0x1p-1; pin 0x1p-1; pin 0x1p-1;
        pin 0x1p-1; pin 0x1p-1; pin 0x1p-1; pin 0x1p-1; pin 0x1.cp-1;
        pin 0x1p-1];
     payload := Satisfaction [[1%Z]] 1 |}.

(** The projections that [solve] hands to the strategy. *)
Definition handed_over (problem : Problem) (this : NPSolver)
  : outcome (list Projection) :=
  let? solutionSpace := _initializeSolutionSpace problem in
  let '(driftedSpace, this) := _applyQuantumDrift solutionSpace problem this in
  let '(patterns, _) := _extractPatterns driftedSpace problem this in
  Ok (topProjections patterns problem).

(** Both leading coordinates of the projection exist and are numbers. *)
Definition has_leanings (proj : Projection) : bool :=
  match coordinates proj with
  | c0 :: c1 :: _ => negb (is_nan c0) && negb (is_nan c1)
  | _ => false
  end.

(** The comparator [cmp] does not ask for [b] before [a]. *)
Definition in_order {A} (cmp : A -> A -> float) (a b : A) : Prop :=
  (cmp b a <? 0) = false.

(** A binary64 value below zero. *)
Definition negative (a : spec_float) : bool := SFltb a (S754_zero false).

(** What holds of the store before round [i] of the drift: the arrays of
    [h0] are as they were, and the first [i] entries of the copied array of
    vectors are arrays that [h0] does not have. *)
Definition round_inv (h0 : Heap.heap) (vs : Heap.loc) (n i : nat)
    (s : Heap.heap * list (list float)) : Prop :=
  h0 ⊆ fst s
  /\ exists refs,
       fst s !! vs = Some (Heap.VectorList refs)
       /\ length refs = n
       /\ forall k r, (k < i)%nat -> refs !! k = Some r -> h0 !! r = None.

(** The store holds the vectors [vs] at the references [refs]. *)
Definition holds (h : Heap.heap) (refs : list Heap.loc) (vs : list (list float)) : Prop :=
  Forall2 (fun r elems => h !! r = Some (Heap.Float64Array elems)) refs vs.

(** A store with two vectors and the space that refers to them. *)
Definition sample_store : Heap.heap :=
  <[0%nat := Heap.VectorList [1%nat; 2%nat]]>
    (<[1%nat := Heap.Float64Array [0x1p-1; 0x1p-2]]>
       (<[2%nat := Heap.Float64Array [1; 0]]> ∅)).

Definition sample_space_ref : Heap.SpaceRef :=
  {| Heap.r_dimensions := 2; Heap.r_size := 20; Heap.r_constraints := [];
     Heap.r_vectors := 0%nat |}.

Definition sample_space : Space :=
  {| sp_dimensions := 2; sp_size := 20; sp_constraints := [];
     vectors := [[0x1p-1; 0x1p-2]; [1; 0]] |}.

(** ** The demonstration page

    The page that shows the solver carries a solver and a generator of its
    own in its script.  Its strategies are greedy and use no projection;
    the two below take the fields that the source destructures from the
    problem object.  Colours are natural numbers. *)

Module Page.

Record ColoringAnswer := {
  coloring : list nat;
  colorCount : float
}.

(** [let color = 0; while (usedColors.has(color)) color++].  [fuel] bounds
    the number of tests; running out of it stands for a loop that does not
    end. *)
Fixpoint first_unused (usedColors : gset nat) (fuel color : nat) : outcome nat :=
  match fuel with
  | O => Hang
  | S fuel' =>
      if bool_decide (color ∈ usedColors)
      then first_unused usedColors fuel' (S color)
      else Ok color
  end.

(** The colours of the neighbours of node [i] (lines 160-166);
    [coloring[j]] is never [undefined] for [j < n], a node that has no
    colour yet holds 0. *)
Definition usedColors (graph : list (list Z)) (coloring : list nat) (i : nat)
  : gset nat :=
  fold_left
    (fun usedColors j =>
       if adjacent graph i j then
         match coloring !! j with
         | Some c => {[c]} ∪ usedColors
         | None => usedColors
         end
       else usedColors)
    (seq 0 (length graph)) ∅.

Definition _solveGraphColoring (fuel : nat) (graph : list (list Z))
  : outcome ColoringAnswer :=
  let n := length graph in
  let? coloring :=
    for_each
      (fun i coloring =>
         let? color := first_unused (usedColors graph coloring i) fuel 0 in
         Ok (<[i := color]> coloring))
      0 n (repeat 0%nat n) in
  Ok {| coloring := coloring;
        colorCount := Math_max (map N2F coloring) + 1 |}.

(** [false] at the first pair [i < j] of adjacent nodes of one colour. *)
Definition _verifyGraphColoring (coloring : list nat) (graph : list (list Z))
  : bool :=
  let n := length graph in
  forallb
    (fun i =>
       forallb
         (fun j =>
            negb (adjacent graph i j
                  && bool_decide (coloring !! i = coloring !! j)))
         (seq (i + 1) (n - (i + 1))))
    (seq 0 n).

(** The page tests [variable < assignment.length] before it compares;
    a literal holds under the same condition as in the engine. *)
Definition _evaluateSATScore (clauses : list (list Z))
    (assignment : list bool) : nat :=
  fold_left
    (fun satisfiedCount clause =>
       if existsb (literal_holds assignment) clause then S satisfiedCount
       else satisfiedCount)
    clauses 0%nat.

Record SatAnswer := {
  assignment : list bool;
  satisfied : bool
}.

(** Each variable in turn is set to [true], then to [false], and keeps
    the value of the better score. *)
Definition _solveSAT (clauses : list (list Z)) (variables : Z)
  : outcome SatAnswer :=
  let? assignment := Array_fill variables false in
  let assignment :=
    fold_left
      (fun assignment i =>
         let trueScore := _evaluateSATScore clauses (<[i := true]> assignment) in
         let falseScore :=
           _evaluateSATScore clauses (<[i := false]> assignment) in
         <[i := (falseScore <=? trueScore)%nat]> assignment)
      (seq 0 (Z.to_nat variables)) assignment in
  Ok {| assignment := assignment;
        satisfied :=
          (_evaluateSATScore clauses assignment =? length clauses)%nat |}.

End Page.

(** ** The problem generator

    [random k] is what the [k]-th call of [Math.random()] returns; a
    generator takes the number of calls made so far and gives back the
    number after it. *)

Module ProblemGenerator.


Section Random.
Variable random : nat -> float.




End Random.

End ProblemGenerator.

(** ** Notions used in the further properties *)

(** [Math.max(0, Math.min(1, v))] is a number of [0, 1], or NaN when [v]
    is. *)
Definition clamped (r : float) : Prop :=
  is_nan r = true \/ ((0 <=? r) = true /\ (r <=? 1) = true).

(** What a subset-sum answer says of itself. *)
Definition consistent_subset (numbers : list float) (target : float)
    (sol : Solution) : Prop :=
  exists selectedIndices sum,
    sol = SubsetSolution selectedIndices sum target (abs (sum - target))
    /\ StronglySorted lt selectedIndices
    /\ List.Forall (fun i => (i < length numbers)%nat) selectedIndices
    /\ sum = fold_left (fun s i => s + get numbers i) selectedIndices 0.

Definition swap5 (t : float * float * float * float * float)
  : float * float * float * float * float :=
  let '(a, b, c, d, p) := t in (b, a, d, c, p).

(** Entry [j] of a drifted vector. *)
Definition drifted_entry {M : MathImpl} (problem : Problem)
    (driftState : float) (i : nat) (vector : list float) (j : nat) : float :=
  Math_max
    [0; Math_min
          [1; get vector j
              + (get vector j * _calculateDriftFactor problem i j * driftState)]].

Definition supported (t : string) : bool :=
  String.eqb t "tsp" || String.eqb t "graph-coloring" || String.eqb t "sat"
  || String.eqb t "subset-sum".

(** Engines bound the number of arguments of one call, as in
    [Math.min(...nodeValues)], and the length of an array by limits of
    their own, which the language does not fix and the model does not
    have.  A count up to [small_count] is far below them. *)
Definition small_count : Z := 4096.

(** The payload is the one of the problem's kind, with small counts. *)
Definition well_formed (problem : Problem) : Prop :=
  match payload problem with
  | Tour _ => type problem = "tsp"%string
  | Coloring graph maxColors =>
      type problem = "graph-coloring"%string
      /\ (0 <= maxColors <= small_count)%Z
      /\ (Z.of_nat (length graph) <= small_count)%Z
  | Satisfaction _ variables =>
      type problem = "sat"%string /\ (0 <= variables <= small_count)%Z
  | SubsetSelection _ _ => type problem = "subset-sum"%string
  end.

(** No hyphen occurs in [s]. *)
Fixpoint dash_free (s : string) : bool :=
  match s with
  | EmptyString => true
  | String c s' => negb (Ascii.eqb c "-") && dash_free s'
  end.

(** A number that is neither NaN, nor infinite, nor zero or below. *)
Definition positive_number (v : float) : bool := (0 <? v) && (v <? infinity).






(** * Properties *)

(** ** Cache keys *)

Lemma toString_inj (a b : Z) : toString a = toString b -> a = b.
Proof.
  unfold toString. intros H.
  assert (Hnn : forall z, Z.to_int z <> Decimal.Pos Decimal.Nil
                          /\ Z.to_int z <> Decimal.Neg Decimal.Nil).
  { intros [|q|q]; cbn; split; try discriminate;
      intros [= E]; exact (DecimalPos.Unsigned.to_uint_nonnil _ E). }
  apply DecimalZ.to_int_inj.
  assert (E : Some (Z.to_int a) = Some (Z.to_int b)).
  { destruct (Hnn a), (Hnn b).
    rewrite <- (NilZero.isi (Z.to_int a)), <- (NilZero.isi (Z.to_int b)) by assumption.
    now rewrite H. }
  now injection E.
Qed.

Lemma key_components (p : Problem) :
  _generateProblemKey p
  = String.app (type p)
      (String.app "-" (String.app (toString (size p))
         (String.app "-" (toString (dimensions_or_default p))))).
Proof. reflexivity. Qed.

(** C6, as the code has it: the cache key is made of the kind, the size
    and the dimension count in force ([dimensions], or 11 when it is absent
    or zero).  Two instances of one kind and one size have the same key
    exactly when their dimension counts in force agree; a different
    dimension count gives a different key. *)
Theorem key_includes_dimensions (p q : Problem) :
  type p = type q -> size p = size q ->
  (_generateProblemKey p = _generateProblemKey q
   <-> dimensions_or_default p = dimensions_or_default q).
Proof.
  intros Ht Hs. rewrite !key_components, Ht, Hs. split.
  - intros H. do 4 apply String.app_inj in H. now apply toString_inj.
  - now intros ->.
Qed.

Lemma key_includes_dimensions_witness :
  _generateProblemKey (problem_of "tsp" 20 None (Tour []))
  = _generateProblemKey (problem_of "tsp" 20 (Some 0%Z) (Coloring [] 3))
  <-> DIMENSIONS = DIMENSIONS.
Proof.
  apply (key_includes_dimensions (problem_of "tsp" 20 None (Tour []))
           (problem_of "tsp" 20 (Some 0%Z) (Coloring [] 3)));
    reflexivity.
Defined.

(** C6 as stated fails: same kind, same size, dimension counts 11 and 5,
    and the keys differ. *)
Lemma key_ignores_dimensions_fails :
  let p := problem_of "tsp" 20 (Some 11%Z) (Tour []) in
  let q := problem_of "tsp" 20 (Some 5%Z) (Tour []) in
  type p = type q /\ size p = size q
  /\ _generateProblemKey p = "tsp-20-11"%string
  /\ _generateProblemKey q = "tsp-20-5"%string
  /\ _generateProblemKey p <> _generateProblemKey q.
Proof. repeat split; discriminate. Qed.

(** ** Loops *)

Lemma fold_left_invariant {A B} (P : A -> Prop) (f : A -> B -> A) (l : list B) :
  (forall a b, P a -> P (f a b)) -> forall a, P a -> P (fold_left f l a).
Proof.
  intros Hf. induction l as [|b l IH]; intros a Ha; simpl; auto.
Qed.

Lemma for_each_invariant {St} (P : St -> Prop) (body : nat -> St -> outcome St) :
  (forall i s s', P s -> body i s = Ok s' -> P s') ->
  forall n from s s', P s -> for_each body from n s = Ok s' -> P s'.
Proof.
  intros Hb. induction n as [|n IH]; intros from s s' Hs; simpl.
  - now intros [= <-].
  - destruct (body from s) as [s1| |] eqn:E; simpl; try discriminate.
    intros H. eapply IH; [|exact H]. eauto.
Qed.

(** ** Dimension counts *)

Lemma generated_length (problem : Problem) (seed : nat) (vector : list float) :
  _generateSolutionVector problem seed = Ok vector ->
  length vector = Z.to_nat (dimensions_or_default problem).
Proof.
  unfold _generateSolutionVector, new_Float64Array.
  destruct (dimensions_or_default problem <? 0)%Z; simpl; [discriminate|].
  intros [= <-].
  set (v0 := repeat 0%float _).
  transitivity (length v0); [|apply repeat_length].
  generalize (seq 0 (length v0)). intros l.
  apply (fold_left_invariant (fun v => length v = length v0)); [|reflexivity].
  intros a i Ha.
  destruct (constraints problem !! i) as [[c|]|]; now rewrite ?length_insert.
Qed.

Lemma negative_dimensions_throw (problem : Problem) (seed : nat) :
  (dimensions_or_default problem < 0)%Z ->
  _generateSolutionVector problem seed = Throw RangeError.
Proof.
  intros H. unfold _generateSolutionVector, new_Float64Array.
  apply Z.ltb_lt in H. now rewrite H.
Qed.

(** C4, as the code has it.  A negative dimension count makes every
    generation of a vector throw a RangeError from the allocation; no
    vector is produced.  [solve] passes the error on to its caller, with
    the engine untouched, exactly when it asks for a vector: when the
    vector count [ceil(log2(size) * PHI)] is one or more.  When the count
    is zero (size 1) no vector is asked for, and the space is built, empty,
    without an error.  A dimension count that is zero or absent is not an
    error: the default of 11 is used and the vector has 11 entries. *)
Theorem dimension_count_handling {M : MathImpl} (problem : Problem) :
  (forall d, dimensions problem = Some d -> (d < 0)%Z ->
     (forall seed, _generateSolutionVector problem seed = Throw RangeError)
     /\ (forall startTime endTime this,
           loop_bound (Math_ceil (Math_log2 (Z2F (size problem)) * PHI))
             <> Rounds 0 ->
           solve problem startTime endTime this = (Throw RangeError, this))
     /\ (loop_bound (Math_ceil (Math_log2 (Z2F (size problem)) * PHI))
         = Rounds 0 ->
         _initializeSolutionSpace problem
         = Ok {| sp_dimensions := d; sp_size := size problem;
                 sp_constraints := constraints problem; vectors := [] |}))
  /\ (dimensions problem = None \/ dimensions problem = Some 0%Z ->
      forall seed, exists vector,
        _generateSolutionVector problem seed = Ok vector
        /\ length vector = 11%nat).
Proof.
  split.
  - intros d Hd Hneg.
    assert (Hdef : (dimensions_or_default problem < 0)%Z).
    { unfold dimensions_or_default. rewrite Hd.
      destruct (Z.eqb_spec d 0); [lia|assumption]. }
    split; [intros seed; now apply negative_dimensions_throw|]. split.
    + intros t0 t1 this Hb. unfold solve, _initializeSolutionSpace.
      destruct (loop_bound _) as [[|n]|]; [congruence| |]; simpl;
        now rewrite negative_dimensions_throw.
    + intros Hb. unfold _initializeSolutionSpace. rewrite Hb. simpl.
      unfold dimensions_or_default. rewrite Hd.
      destruct (Z.eqb_spec d 0); [lia|reflexivity].
  - intros Hd seed.
    assert (Hdef : dimensions_or_default problem = DIMENSIONS).
    { unfold dimensions_or_default. now destruct Hd as [-> | ->]. }
    destruct (_generateSolutionVector problem seed) as [v| |] eqn:E.
    + exists v. split; [reflexivity|].
      apply generated_length in E. now rewrite E, Hdef.
    + unfold _generateSolutionVector, new_Float64Array in E.
      now rewrite Hdef in E.
    + unfold _generateSolutionVector, new_Float64Array in E.
      now rewrite Hdef in E.
Qed.

Lemma dimension_count_handling_witness :
  (forall seed,
     _generateSolutionVector
       (problem_of "sat" 20 (Some (-1)%Z) (Satisfaction [[1%Z]] 1)) seed
     = Throw RangeError)
  /\ solve (problem_of "sat" 20 (Some (-1)%Z) (Satisfaction [[1%Z]] 1)) 0 5
       new_NPSolver
     = (Throw RangeError, new_NPSolver)
  /\ _initializeSolutionSpace
       (problem_of "sat" 1 (Some (-1)%Z) (Satisfaction [[1%Z]] 1))
     = Ok {| sp_dimensions := (-1)%Z; sp_size := 1; sp_constraints := [];
             vectors := [] |}.
Proof.
  destruct (proj1 (dimension_count_handling
                     (problem_of "sat" 20 (Some (-1)%Z) (Satisfaction [[1%Z]] 1)))
              (-1)%Z eq_refl eq_refl) as (H1 & H2 & _).
  destruct (proj1 (dimension_count_handling
                     (problem_of "sat" 1 (Some (-1)%Z) (Satisfaction [[1%Z]] 1)))
              (-1)%Z eq_refl eq_refl) as (_ & _ & H3).
  split; [exact H1|]. split.
  - apply H2. vm_compute. discriminate.
  - apply H3. reflexivity.
Defined.

(** C4 as stated fails at a dimension count of zero: the vector is
    generated, with the fallback count of 11, and [solve] returns. *)
Lemma zero_dimensions_fall_back :
  let problem := problem_of "sat" 20 (Some 0%Z) (Satisfaction [[1%Z]] 1) in
  (exists vector,
     _generateSolutionVector problem 0 = Ok vector /\ length vector = 11%nat)
  /\ (exists result this,
        solve problem 0 5 new_NPSolver = (Ok result, this)).
Proof.
  split.
  - eexists. split; [vm_compute; reflexivity|reflexivity].
  - eexists. eexists. vm_compute. reflexivity.
Qed.

(** ** The dimension histories *)

Lemma push_shift_evicts_oldest (stack : list float) (v : float) :
  bounded stack ->
  push_shift stack v
  = if (length stack <? 100)%nat then stack ++ [v] else tail stack ++ [v].
Proof.
  unfold bounded, push_shift. intros H. rewrite length_app. simpl.
  destruct (Nat.ltb_spec (length stack) 100);
    destruct (Nat.ltb_spec 100 (length stack + 1)); try lia; try reflexivity.
  destruct stack; [simpl in *; lia|reflexivity].
Qed.

Lemma push_shift_window (stack : list float) (v : float) :
  bounded stack -> push_shift stack v = window (stack ++ [v]).
Proof.
  unfold bounded, push_shift, window. intros H. rewrite length_app. simpl.
  destruct (Nat.ltb_spec 100 (length stack + 1)).
  - replace (length stack + 1 - 100)%nat with 1%nat by lia. reflexivity.
  - replace (length stack + 1 - 100)%nat with 0%nat by lia. reflexivity.
Qed.

Lemma window_bounded (values : list float) : bounded (window values).
Proof. unfold bounded, window. rewrite length_skipn. lia. Qed.

Lemma push_shift_bounded (stack : list float) (v : float) :
  bounded stack -> bounded (push_shift stack v).
Proof. intros H. rewrite push_shift_window by assumption. apply window_bounded. Qed.

Lemma window_app (values more : list float) :
  window (window values ++ more) = window (values ++ more).
Proof.
  unfold window. rewrite !length_app, length_skipn.
  destruct (Nat.le_gt_cases (length values) 100) as [Hle|Hgt].
  - replace (length values - 100)%nat with 0%nat by lia. simpl.
    now rewrite Nat.sub_0_r.
  - set (k := (length values - 100)%nat).
    replace (length values - k + length more - 100)%nat with (length more) by lia.
    replace (length values + length more - 100)%nat
      with (length more + k)%nat by lia.
    rewrite <- skipn_skipn, (skipn_app k values more).
    now replace (k - length values)%nat with 0%nat by lia.
Qed.

(** Successive pushes keep the last 100 values. *)
Lemma pushes_window (more stack : list float) :
  bounded stack -> fold_left push_shift more stack = window (stack ++ more).
Proof.
  revert stack. induction more as [|v more IH]; intros stack H; simpl.
  - rewrite app_nil_r. unfold window, bounded in *.
    now replace (length stack - 100)%nat with 0%nat by lia.
  - rewrite IH by now apply push_shift_bounded.
    rewrite push_shift_window by assumption.
    rewrite window_app, <- app_assoc. reflexivity.
Qed.

Lemma pushToTickStack_lookup (vector : list float) (ts : list (list float))
    (i : nat) :
  _pushToTickStack vector ts !! i
  = if (i <? Nat.min (length vector) (Z.to_nat DIMENSIONS))%nat
    then (fun stack => push_shift stack (get vector i)) <$> ts !! i
    else ts !! i.
Proof.
  unfold _pushToTickStack.
  set (n := Nat.min _ _).
  assert (G : forall n a (ts : list (list float)),
             fold_left
               (fun ts i => alter (fun stack => push_shift stack (get vector i)) i ts)
               (seq a n) ts !! i
             = if ((a <=? i) && (i <? a + n))%nat
               then (fun stack => push_shift stack (get vector i)) <$> ts !! i
               else ts !! i).
  { clear. induction n as [|n IH]; intros a ts; simpl.
    - destruct (Nat.leb_spec a i), (Nat.ltb_spec i (a + 0)); simpl;
        try reflexivity; lia.
    - rewrite IH.
      destruct (Nat.eq_dec i a) as [->|Hne].
      + rewrite list_lookup_alter_eq.
        destruct (Nat.leb_spec (S a) a); [lia|]. simpl.
        destruct (Nat.leb_spec a a); [|lia]. simpl.
        destruct (Nat.ltb_spec a (a + S n)); [reflexivity|lia].
      + rewrite list_lookup_alter_ne by congruence.
        destruct (Nat.leb_spec (S a) i), (Nat.leb_spec a i),
          (Nat.ltb_spec i (S a + n)), (Nat.ltb_spec i (a + S n));
          simpl; try reflexivity; lia. }
  rewrite G. simpl. reflexivity.
Qed.

Lemma pushToTickStack_bounded (vector : list float) (ts : list (list float)) :
  Forall bounded ts -> Forall bounded (_pushToTickStack vector ts).
Proof.
  unfold _pushToTickStack.
  apply fold_left_invariant. intros a i Ha.
  rewrite Forall_lookup in *. intros k stack Hk.
  destruct (Nat.eq_dec k i) as [->|Hne].
  - rewrite list_lookup_alter_eq in Hk.
    destruct (a !! i) as [s|] eqn:E; simpl in Hk; [|discriminate].
    injection Hk as <-. apply push_shift_bounded. eauto.
  - rewrite list_lookup_alter_ne in Hk by congruence. eauto.
Qed.

Lemma applyQuantumDrift_bounded {M : MathImpl} (space : Space)
    (problem : Problem) (this : NPSolver) :
  Forall bounded (tickStack this) ->
  Forall bounded (tickStack (snd (_applyQuantumDrift space problem this))).
Proof.
  intros H. unfold _applyQuantumDrift.
  match goal with
  | |- context [fold_left ?f ?l ?a] =>
      assert (G : Forall bounded (snd (fold_left f l a)))
  end.
  { apply (fold_left_invariant (fun s => Forall bounded (snd s))); [|exact H].
    intros [vs ts] i Hs. simpl in *. now apply pushToTickStack_bounded. }
  destruct (fold_left _ _ _) as [vs ts]. exact G.
Qed.

Lemma extractPatterns_tickStack {M : MathImpl} (space : Space)
    (problem : Problem) (this : NPSolver) :
  tickStack (snd (_extractPatterns space problem this)) = tickStack this.
Proof. unfold _extractPatterns. now destruct (cached_pattern problem this). Qed.

Lemma solve_bounded {M : MathImpl} (problem : Problem) (t0 t1 : float)
    (this : NPSolver) :
  Forall bounded (tickStack this) ->
  Forall bounded (tickStack (snd (solve problem t0 t1 this))).
Proof.
  intros H. unfold solve.
  destruct (_initializeSolutionSpace problem) as [sp| |]; try exact H.
  pose proof (applyQuantumDrift_bounded sp problem this H) as H1.
  destruct (_applyQuantumDrift sp problem this) as [ds this1]. simpl in H1.
  pose proof (extractPatterns_tickStack ds problem this1) as H2.
  destruct (_extractPatterns ds problem this1) as [pat this2]. simpl in *.
  now rewrite H2.
Qed.

Lemma history_after_window (vs : list (list float)) (ts : list (list float))
    (i : nat) :
  (i < Z.to_nat DIMENSIONS)%nat -> (i < length ts)%nat ->
  Forall (fun v => (i < length v)%nat) vs ->
  bounded (nth i ts []) ->
  history_after vs ts i = window (nth i ts [] ++ map (fun v => get v i) vs).
Proof.
  unfold history_after. intros Hi. revert ts.
  induction vs as [|v vs IH]; intros ts Hts Hvs Hb; simpl.
  - rewrite app_nil_r. unfold window, bounded in *.
    now replace (length (nth i ts []) - 100)%nat with 0%nat by lia.
  - inversion Hvs as [|? ? Hv Hvs']; subst.
    assert (E : nth i (_pushToTickStack v ts) []
                = push_shift (nth i ts []) (get v i)).
    { destruct (lookup_lt_is_Some_2 ts i Hts) as [s Hs].
      rewrite (nth_lookup_Some ts i [] s Hs).
      apply nth_lookup_Some. rewrite pushToTickStack_lookup, Hs.
      destruct (Nat.ltb_spec i (Nat.min (length v) (Z.to_nat DIMENSIONS)));
        [reflexivity|lia]. }
    rewrite IH; auto.
    + rewrite E, push_shift_window by assumption.
      now rewrite window_app, <- app_assoc.
    + apply lookup_lt_is_Some_1. rewrite pushToTickStack_lookup.
      destruct (lookup_lt_is_Some_2 ts i Hts) as [s Hs]. rewrite Hs.
      destruct (_ <? _)%nat; simpl; eauto.
    + rewrite E. now apply push_shift_bounded.
Qed.

Lemma window_of_many (old new : list float) :
  (100 <= length new)%nat -> window (old ++ new) = window new.
Proof.
  unfold window. intros H. rewrite length_app, skipn_app.
  rewrite skipn_all2 by lia. simpl. f_equal. lia.
Qed.

(** C8: every dimension history holds at most 100 values, from the
    constructor on and through every [solve]; a push onto a full history
    drops exactly its oldest entry; the history of a dimension is always
    the last 100 values pushed to it, so that after 100 or more pushes no
    value from before them is left. *)
Theorem history_is_a_fifo_window {M : MathImpl} :
  Forall bounded (tickStack new_NPSolver)
  /\ (forall problem startTime endTime this,
        Forall bounded (tickStack this) ->
        Forall bounded (tickStack (snd (solve problem startTime endTime this))))
  /\ (forall stack v,
        bounded stack ->
        push_shift stack v
        = if (length stack <? 100)%nat then stack ++ [v]
          else tail stack ++ [v])
  /\ (forall vs ts i,
        (i < Z.to_nat DIMENSIONS)%nat -> (i < length ts)%nat ->
        Forall (fun v => (i < length v)%nat) vs ->
        bounded (nth i ts []) ->
        history_after vs ts i = window (nth i ts [] ++ map (fun v => get v i) vs)
        /\ bounded (history_after vs ts i)
        /\ ((100 <= length vs)%nat ->
            history_after vs ts i = window (map (fun v => get v i) vs))).
Proof.
  split; [|split; [|split]].
  - repeat constructor; unfold bounded; simpl; lia.
  - intros. now apply solve_bounded.
  - intros. now apply push_shift_evicts_oldest.
  - intros vs ts i Hi Hts Hvs Hb.
    pose proof (history_after_window vs ts i Hi Hts Hvs Hb) as E.
    split; [exact E|]. split.
    + rewrite E. apply window_bounded.
    + intros Hn. rewrite E. apply window_of_many. now rewrite length_map.
Qed.

Lemma history_is_a_fifo_window_witness :
  history_after (repeat (repeat 1 11) 101) (tickStack new_NPSolver) 0
  = window (map (fun v => get v 0) (repeat (repeat 1 11) 101)).
Proof.
  apply (proj2 (proj2 (proj2 (history_is_a_fifo_window (M := SampleMath))))
           (repeat (repeat 1 11) 101) (tickStack new_NPSolver) 0%nat).
  - vm_compute. lia.
  - vm_compute. lia.
  - apply List.Forall_forall. intros v Hv. apply repeat_spec in Hv. subst.
    vm_compute. lia.
  - vm_compute. lia.
  - vm_compute. lia.
Defined.

(** ** Order on numbers

    The facts about [<], [<=] and the sign of a difference that the
    properties below use, from the specification of binary64 in
    [SpecFloat]. *)

Module NumberOrder.

Ltac lex_compare :=
  repeat match goal with
    | H : context [Pos.compare_cont Eq ?a ?b] |- _ =>
        change (Pos.compare_cont Eq a b) with (Pos.compare a b) in H
    | |- context [Pos.compare_cont Eq ?a ?b] =>
        change (Pos.compare_cont Eq a b) with (Pos.compare a b)
    end;
  repeat match goal with
    | H : context [Z.compare ?a ?b] |- _ => destruct (Z.compare_spec a b)
    | |- context [Z.compare ?a ?b] => destruct (Z.compare_spec a b)
    | H : context [Pos.compare ?a ?b] |- _ => destruct (Pos.compare_spec a b)
    | |- context [Pos.compare ?a ?b] => destruct (Pos.compare_spec a b)
    end;
  subst; simpl in *; try discriminate; try reflexivity; try lia.

Ltac by_kinds a b :=
  destruct a as [[]|[]| |[] ? ?], b as [[]|[]| |[] ? ?];
  simpl; try discriminate; try reflexivity.

Lemma SFltb_irrefl a : SFltb a a = false.
Proof. unfold SFltb. destruct a as [[]|[]| |[] ? ?]; simpl; lex_compare. Qed.

Lemma SFleb_refl a : a <> S754_nan -> SFleb a a = true.
Proof.
  unfold SFleb. destruct a as [[]|[]| |[] ? ?]; simpl; try congruence;
    intros _; lex_compare.
Qed.

Lemma SFleb_not_gt a b : SFleb a b = true -> SFltb b a = false.
Proof. unfold SFleb, SFltb. by_kinds a b; lex_compare. Qed.

Lemma SFlt_le_trans a b c :
  SFltb a b = true -> SFleb b c = true -> SFleb a c = true.
Proof.
  unfold SFleb, SFltb.
  destruct a as [[]|[]| |[] ? ?], b as [[]|[]| |[] ? ?],
    c as [[]|[]| |[] ? ?];
    simpl; try discriminate; try reflexivity; intros; lex_compare.
Qed.

Lemma binary_round_sign s m e :
  negative (binary_round prec emax s m e) = true -> s = true.
Proof.
  unfold negative, SFltb, binary_round, binary_round_aux.
  destruct (shl_align _ _ _) as [mz ez].
  destruct (shr_fexp _ _ _ _ _) as [mrs' e'].
  destruct (shr_fexp _ _ _ _ _) as [mrs'' e''].
  destruct (shr_m mrs''); [| destruct (Z.leb _ _) |];
    destruct s; simpl; congruence.
Qed.

Lemma binary_normalize_negative m e :
  negative (binary_normalize prec emax m e false) = true -> (m < 0)%Z.
Proof.
  destruct m; simpl; intros H; try lia.
  - discriminate.
  - apply binary_round_sign in H. discriminate.
Qed.

Lemma SFsub_antisym a b :
  negative (SF64sub a b) = true -> negative (SF64sub b a) = false.
Proof.
  unfold SF64sub, SFsub.
  destruct a as [sa|sa| |sa ma ea], b as [sb|sb| |sb mb eb];
    try (try destruct sa; try destruct sb; unfold negative, SFltb; simpl;
         congruence).
  intros H. apply binary_normalize_negative in H.
  destruct (negative _) eqn:E; [|reflexivity].
  apply binary_normalize_negative in E.
  rewrite (Z.min_comm eb ea) in E. lia.
Qed.

Local Open Scope float_scope.

Lemma nan_spec (v : float) : is_nan v = true -> Prim2SF v = S754_nan.
Proof. unfold Prim2SF. now intros ->. Qed.

Lemma not_nan_spec (v : float) : is_nan v = false -> Prim2SF v <> S754_nan.
Proof.
  unfold Prim2SF. intros ->.
  destruct (is_zero v); [discriminate|].
  destruct (is_infinity v); [discriminate|].
  destruct (Z.frexp v) as [r e].
  destruct (shr_fexp _ _ _ _ _) as [s e'].
  destruct (shr_m s); discriminate.
Qed.

Lemma ltb_irrefl (v : float) : (v <? v) = false.
Proof. rewrite ltb_spec. apply SFltb_irrefl. Qed.

Lemma leb_refl (v : float) : is_nan v = false -> (v <=? v) = true.
Proof. intros H. rewrite leb_spec. apply SFleb_refl. now apply not_nan_spec. Qed.

Lemma leb_not_gt (a b : float) : (a <=? b) = true -> (b <? a) = false.
Proof. rewrite leb_spec, ltb_spec. apply SFleb_not_gt. Qed.

Lemma lt_le_trans (a b c : float) :
  (a <? b) = true -> (b <=? c) = true -> (a <=? c) = true.
Proof. rewrite !leb_spec, ltb_spec. apply SFlt_le_trans. Qed.

Lemma nan_not_lt (a b : float) : is_nan a = true -> (a <? b) = false.
Proof. intros H. rewrite ltb_spec, (nan_spec a H). reflexivity. Qed.

(** A comparator [b - a] cannot ask for both orders. *)
Lemma sub_antisym (a b : float) : (a - b <? 0) = true -> (b - a <? 0) = false.
Proof. rewrite !ltb_spec, !sub_spec. apply SFsub_antisym. Qed.

End NumberOrder.

(** ** Sorting *)

Section SortFacts.
Context {A : Type} (cmp : A -> A -> float).

Lemma insert_sorted_perm (a : A) (l : list A) :
  Permutation (insert_sorted cmp a l) (a :: l).
Proof.
  induction l as [|b l IH]; simpl; [reflexivity|].
  destruct (cmp a b <? 0)%float; [reflexivity|].
  rewrite IH. apply perm_swap.
Qed.

Lemma sort_perm (l : list A) : Permutation (sort cmp l) l.
Proof.
  unfold sort.
  assert (G : forall acc,
             Permutation (fold_left (fun acc a => insert_sorted cmp a acc) l acc)
                         (acc ++ l)).
  { induction l as [|a l IH]; intros acc; simpl.
    - now rewrite app_nil_r.
    - rewrite IH, insert_sorted_perm. simpl. apply Permutation_middle. }
  apply (G []).
Qed.

Hypothesis cmp_antisym :
  forall a b, (cmp a b <? 0)%float = true -> (cmp b a <? 0)%float = false.

Lemma insert_sorted_ordered (a : A) (l : list A) :
  LocallySorted (in_order cmp) l -> LocallySorted (in_order cmp) (insert_sorted cmp a l).
Proof.
  induction 1 as [|b|b c l Hl IH Hbc]; simpl.
  - constructor.
  - destruct (cmp a b <? 0)%float eqn:E.
    + constructor; [constructor|]. now apply cmp_antisym.
    + constructor; [constructor|]. exact E.
  - destruct (cmp a b <? 0)%float eqn:E.
    + constructor; [now constructor|]. now apply cmp_antisym.
    + simpl in IH. destruct (cmp a c <? 0)%float eqn:E'.
      * constructor; [exact IH|exact E].
      * constructor; [exact IH|exact Hbc].
Qed.

Lemma sort_ordered (l : list A) : LocallySorted (in_order cmp) (sort cmp l).
Proof.
  unfold sort. apply fold_left_invariant; [|constructor].
  intros acc a H. now apply insert_sorted_ordered.
Qed.
End SortFacts.

Lemma slice0_prefix {A} (l : list A) (v : float) :
  exists rest, l = slice0 l v ++ rest.
Proof.
  unfold slice0. destruct (ToIntegerOrInfinity v) as [k| |].
  - destruct (k <? 0)%Z; eexists; symmetry; apply firstn_skipn.
  - exists []. now rewrite app_nil_r.
  - now exists l.
Qed.

Lemma slice0_length {A} (l : list A) (v : float) (k : Z) :
  (0 <= k)%Z -> ToIntegerOrInfinity v = Fin k ->
  length (slice0 l v) = Nat.min (Z.to_nat k) (length l).
Proof.
  intros Hk E. unfold slice0. rewrite E.
  destruct (Z.ltb_spec k 0); [lia|]. apply length_firstn.
Qed.

(** ** The Collapser *)

Lemma size_one_top {M : MathImpl} (patterns : Patterns) (problem : Problem) :
  size problem = 1%Z -> topProjections patterns problem = [].
Proof.
  intros H. unfold topProjections. rewrite H.
  change (Z2F 1) with 1%float. rewrite Math_log2_one. reflexivity.
Qed.

(** C2, as the code has it, for projections whose values are numbers
    (with a NaN among them the comparator is not consistent, and the order
    is the engine's own).  The Collapser sorts the projections with the
    comparator [b.value - a.value] (a permutation in which no projection
    is followed by one the comparator puts before it), keeps the first
    [ceil(log2(size))] of them, as many as there are, and hands those to
    the strategy.  There is no minimum of one: for size 1 the strategy
    receives the empty list. *)
Theorem collapser_keeps_log2_projections {M : MathImpl} (patterns : Patterns)
    (problem : Problem) :
  forallb (fun p => negb (is_nan (value p))) (vectorProjections patterns)
  = true ->
  let sorted :=
    sort (fun a b => value b - value a)%float (vectorProjections patterns) in
  let top := topProjections patterns problem in
  _collapseSolution patterns problem
  = _combineSolutionFromProjections top problem
  /\ Permutation sorted (vectorProjections patterns)
  /\ LocallySorted (fun a b => (value a - value b <? 0)%float = false) sorted
  /\ (exists rest, sorted = top ++ rest)
  /\ (forall k,
        (0 <= k)%Z ->
        ToIntegerOrInfinity (Math_ceil (Math_log2 (Z2F (size problem)))) = Fin k ->
        length top = Nat.min (Z.to_nat k) (length (vectorProjections patterns)))
  /\ (size problem = 1%Z -> top = []).
Proof.
  intros _ sorted top. repeat split.
  - apply sort_perm.
  - apply (sort_ordered (fun a b => value b - value a)%float).
    intros a b. apply NumberOrder.sub_antisym.
  - apply slice0_prefix.
  - intros k Hk E. unfold top, topProjections.
    rewrite (slice0_length _ _ k Hk E).
    now rewrite (Permutation_length (sort_perm _ _)).
  - apply size_one_top.
Qed.

Lemma collapser_keeps_log2_projections_witness :
  length (topProjections
            {| primaryDimensions := []; correlationStrengths := [];
               vectorProjections :=
                 repeat {| coordinates := []; value := 0 |} 7 |}
            coloring20)
  = Nat.min (Z.to_nat 5) 7.
Proof.
  apply (proj1 (proj2 (proj2 (proj2 (proj2
           (collapser_keeps_log2_projections
              {| primaryDimensions := []; correlationStrengths := [];
                 vectorProjections :=
                   repeat {| coordinates := []; value := 0 |} 7 |}
              coloring20 eq_refl))))) 5%Z).
  - discriminate.
  - reflexivity.
Defined.

(** C2 as stated fails at size 1: a pattern offers one projection, the
    claim has the strategy receive max(1, 0) = 1 of them, and the Collapser
    hands over none; so does a whole [solve] on a new engine. *)
Lemma size_one_receives_no_projection :
  let patterns :=
    {| primaryDimensions := [(0, 1)%nat];
       correlationStrengths := [1%float];
       vectorProjections :=
         [{| coordinates := [0x1p-1%float]; value := 0x1p-1%float |}] |} in
  length (vectorProjections patterns) = 1%nat
  /\ topProjections patterns (unit_clause 1) = []
  /\ (let '(space, this) :=
        _applyQuantumDrift
          {| sp_dimensions := 11; sp_size := 1; sp_constraints := [];
             vectors := [] |} (unit_clause 1) new_NPSolver in
      _initializeSolutionSpace (unit_clause 1)
      = Ok {| sp_dimensions := 11; sp_size := 1; sp_constraints := [];
              vectors := [] |}
      /\ topProjections (fst (_extractPatterns space (unit_clause 1) this))
           (unit_clause 1) = []).
Proof. repeat split. Qed.

(** ** The unit clause *)

Lemma solveSAT_unit_clause (projections : list Projection) (problem : Problem) :
  payload problem = Satisfaction [[1%Z]] 1 ->
  let b := (fst (leanings projections) - f0_1 <? snd (leanings projections))%float in
  _solveSAT projections problem = Ok (SatSolution [b] b).
Proof.
  intros Hp. unfold _solveSAT. rewrite Hp. simpl.
  unfold sat_scores, leanings. simpl.
  destruct (fold_left _ projections _) as [t f]. simpl.
  unfold literal_holds. simpl.
  now destruct (t - f0_1 <? f)%float.
Qed.

(** C3, as the code has it.  For the instance with one variable and the
    unit clause [1], and projections that have their two leading
    coordinates, the answer is [assignment[0] == satisfied], and it is true
    exactly when the true-leaning sum less the bias of 0.1 is strictly
    below the false-leaning sum.  When the instance's size is 1, as the
    generator makes it for one variable, the Collapser passes no
    projection and the answer is true whatever the pattern.  Projections
    that lack a leading coordinate are left out. *)
Theorem unit_clause_answer {M : MathImpl} :
  (forall projections problem,
     payload problem = Satisfaction [[1%Z]] 1 ->
     forallb has_leanings projections = true ->
     let b :=
       (fst (leanings projections) - f0_1 <? snd (leanings projections))%float in
     _solveSAT projections problem = Ok (SatSolution [b] b))
  /\ (forall patterns problem,
        type problem = "sat"%string -> size problem = 1%Z ->
        payload problem = Satisfaction [[1%Z]] 1 ->
        _collapseSolution patterns problem = Ok (SatSolution [true] true)).
Proof.
  split; [intros projections problem Hp _; now apply solveSAT_unit_clause|].
  intros patterns problem Ht Hs Hp.
  unfold _collapseSolution, _combineSolutionFromProjections.
  rewrite size_one_top by assumption. rewrite Ht. simpl.
  now rewrite (solveSAT_unit_clause [] problem Hp).
Qed.

Lemma unit_clause_answer_witness :
  _solveSAT
    [{| coordinates := [0x1p-2; 0x1p-1; 0x1p-1]%float; value := 1%float |}]
    (unit_clause 20)
  = Ok (SatSolution [true] true)
  /\ _collapseSolution
       {| primaryDimensions := []; correlationStrengths := [];
          vectorProjections := [{| coordinates := []; value := 0%float |}] |}
       (unit_clause 1)
     = Ok (SatSolution [true] true).
Proof.
  split.
  - apply (proj1 unit_clause_answer
             [{| coordinates := [0x1p-2; 0x1p-1; 0x1p-1]%float;
                 value := 1%float |}]
             (unit_clause 20)); reflexivity.
  - apply (proj2 unit_clause_answer); reflexivity.
Defined.

(** C3 as stated fails on an engine that has solved the sample colouring
    instance twice: the pinned unit clause then receives one projection,
    with three coordinates that are numbers; its first coordinate less the
    bias is not below its second, and the unit clause is reported
    unsatisfied. *)
Lemma unit_clause_unsatisfied :
  verdict (fst (solve pinned_unit_clause 0 5 after_second_call))
  = Ok (SatSolution [false] false, false)
  /\ match handed_over pinned_unit_clause after_second_call with
     | Ok [proj] =>
         length (coordinates proj) = 3%nat
         /\ forallb (fun c => negb (is_nan c)) (coordinates proj) = true
         /\ (coord proj 0 - f0_1 <? coord proj 1)%float = false
     | _ => False
     end.
Proof. vm_compute. repeat split. Qed.


(** ** Subset-sum refinement *)

Lemma subset_total_sum (numbers : list float) (target : float)
    (subset : list bool) :
  _calculateSubsetSumDiff numbers target subset
  = abs (fst (subset_total numbers subset) - target).
Proof.
  unfold _calculateSubsetSumDiff, subset_total. f_equal. f_equal.
  assert (G : forall l s idx,
             fold_left
               (fun sum i => if selected subset i then sum + get numbers i else sum)
               l s
             = fst (fold_left
                      (fun '(sum, selectedIndices) i =>
                         if selected subset i
                         then (sum + get numbers i, selectedIndices ++ [i])
                         else (sum, selectedIndices))
                      l (s, idx))).
  { induction l as [|i l IH]; intros s idx; simpl; [reflexivity|].
    destruct (selected subset i); apply IH. }
  apply G.
Qed.

Lemma not_above_refl (d0 : float) : not_above d0 d0.
Proof.
  split; [apply NumberOrder.ltb_irrefl|apply NumberOrder.leb_refl].
Qed.

Lemma not_above_step (d0 best diff : float) :
  not_above d0 best -> (diff <? best) = true -> not_above d0 diff.
Proof.
  intros [Hlt Hle] Hd.
  destruct (is_nan d0) eqn:En.
  - split; [now apply NumberOrder.nan_not_lt|congruence].
  - specialize (Hle eq_refl).
    pose proof (NumberOrder.lt_le_trans _ _ _ Hd Hle) as H.
    split; [now apply NumberOrder.leb_not_gt|auto].
Qed.

Lemma refine_loop_invariant (numbers : list float) (target : float)
    (initialSubset : list bool) :
  let d0 := _calculateSubsetSumDiff numbers target initialSubset in
  let r := refine_loop numbers target initialSubset in
  snd r = _calculateSubsetSumDiff numbers target (fst r) /\ not_above d0 (snd r).
Proof.
  intros d0 r. unfold r, refine_loop.
  apply (fold_left_invariant
           (fun s => snd s = _calculateSubsetSumDiff numbers target (fst s)
                     /\ not_above d0 (snd s))).
  - intros [best bestDiff] i [Hd Ha]. simpl in *.
    destruct (_ <? bestDiff) eqn:E; simpl; [|now split].
    split; [reflexivity|]. eapply not_above_step; eauto.
  - simpl. split; [reflexivity|apply not_above_refl].
Qed.

(** C5: the subset returned by [_refineSubsetSum] is never farther from
    the target than the subset it was given: its reported difference is
    [|sum - target|] for its own sum, it is never greater than the
    difference before refinement, and it is at most that difference
    whenever that difference is a number. *)
Theorem refinement_never_increases (numbers : list float) (target : float)
    (initialSubset : list bool) (projections : list Projection) :
  let sum0 := fst (subset_total numbers initialSubset) in
  exists selectedIndices sum,
    _refineSubsetSum numbers target initialSubset projections
    = SubsetSolution selectedIndices sum target (abs (sum - target))
    /\ (abs (sum0 - target) <? abs (sum - target)) = false
    /\ (is_nan (abs (sum0 - target)) = false ->
        (abs (sum - target) <=? abs (sum0 - target)) = true).
Proof.
  intros sum0.
  destruct (refine_loop_invariant numbers target initialSubset) as [Hd [Hlt Hle]].
  unfold _refineSubsetSum.
  destruct (refine_loop numbers target initialSubset) as [best bestDiff].
  simpl in *.
  rewrite subset_total_sum in Hd. rewrite subset_total_sum in Hlt, Hle.
  subst bestDiff.
  destruct (subset_total numbers best) as [sum idx]. simpl in *.
  exists idx, sum. auto.
Qed.

Lemma refinement_never_increases_witness :
  exists selectedIndices sum,
    _refineSubsetSum [1; 2; 3; 4; 5] 0 [true; false; true] []
    = SubsetSolution selectedIndices sum 0 (abs (sum - 0))
    /\ (abs (sum - 0) <=? abs (4 - 0)) = true.
Proof.
  destruct (refinement_never_increases [1; 2; 3; 4; 5] 0 [true; false; true] [])
    as (idx & sum & E & _ & H).
  exists idx, sum. split; [exact E|]. apply H. reflexivity.
Defined.

(** The subset-sum scenario of the specification: from the subset {1, 3}
    of [1, 2, 3, 4, 5] with target 0, the flips that help are kept one
    after the other and the empty subset is reached. *)
Lemma refinement_example :
  _refineSubsetSum [1; 2; 3; 4; 5] 0 [true; false; true; false; false] []
  = SubsetSolution [] 0 0 0.
Proof. reflexivity. Qed.

(** ** Metrics *)

(** C7, as the code has it.  The elapsed time is first divided by 10:
    measuredComplexity = (t / 10) / (size * ln(size)), and the degree is
    ln(t / 10) / ln(size) rounded to two decimals.  A returning call
    reports these two for t = endTime - startTime, and the clock readings
    change neither the solution, nor the validity, nor the engine. *)
Theorem metrics_are_telemetry {M : MathImpl} :
  (forall sz t,
     _getMeasuredComplexity sz t = (t / 10 / (sz * Math_log sz))%float
     /\ _getPolynomialDegree sz t
        = (Math_round (Math_log (t / 10) / Math_log sz * 100) / 100)%float)
  /\ (forall problem startTime endTime this result,
        fst (solve problem startTime endTime this) = Ok result ->
        timeElapsed result = (endTime - startTime)%float
        /\ measuredComplexity (complexityMetrics result)
           = _getMeasuredComplexity (Z2F (size problem)) (endTime - startTime)
        /\ timeComplexity_degree (complexityMetrics result)
           = _getPolynomialDegree (Z2F (size problem)) (endTime - startTime))
  /\ (forall problem startTime endTime startTime' endTime' this,
        verdict (fst (solve problem startTime endTime this))
        = verdict (fst (solve problem startTime' endTime' this))
        /\ snd (solve problem startTime endTime this)
           = snd (solve problem startTime' endTime' this)).
Proof.
  split; [|split].
  - intros sz t. split; reflexivity.
  - intros problem t0 t1 this result. unfold solve.
    destruct (_initializeSolutionSpace problem) as [sp| |]; try discriminate.
    destruct (_applyQuantumDrift sp problem this) as [ds this1].
    destruct (_extractPatterns ds problem this1) as [pat this2].
    destruct (_collapseSolution pat problem) as [sol| |]; try discriminate.
    simpl. destruct (_verifySolution sol problem) as [valid| |];
      try discriminate.
    simpl. intros [= <-]. simpl. auto.
  - intros problem t0 t1 t0' t1' this. unfold solve.
    destruct (_initializeSolutionSpace problem) as [sp| |]; auto.
    destruct (_applyQuantumDrift sp problem this) as [ds this1].
    destruct (_extractPatterns ds problem this1) as [pat this2].
    destruct (_collapseSolution pat problem) as [sol| |]; auto.
    simpl. destruct (_verifySolution sol problem) as [valid| |]; auto.
Qed.

Lemma metrics_are_telemetry_witness :
  exists result,
    fst (solve (unit_clause 2) 0 10 new_NPSolver) = Ok result
    /\ timeElapsed result = 10%float
    /\ measuredComplexity (complexityMetrics result)
       = _getMeasuredComplexity (Z2F 2) (10 - 0)
    /\ timeComplexity_degree (complexityMetrics result)
       = _getPolynomialDegree (Z2F 2) (10 - 0).
Proof.
  eexists. split; [reflexivity|].
  apply (proj1 (proj2 metrics_are_telemetry) (unit_clause 2) 0%float 10%float
           new_NPSolver).
  reflexivity.
Defined.

(** C7 as stated fails: for size 2 and 10 ms the claim's t / (size ln size)
    is ten times what the call reports. *)
Lemma measured_complexity_is_normalized :
  exists result,
    fst (solve (unit_clause 2) 0 10 new_NPSolver) = Ok result
    /\ measuredComplexity (complexityMetrics result)
       = (1 / (2 * Math_log 2))%float
    /\ (measuredComplexity (complexityMetrics result)
          =? 10 / (2 * Math_log 2))%float = false.
Proof. eexists. repeat split. Qed.

(** ** The pattern cache *)

Lemma string_app_inj_r (s1 s2 t : string) :
  String.app s1 t = String.app s2 t -> s1 = s2.
Proof.
  assert (L : forall a b, String.length (String.app a b)
                          = (String.length a + String.length b)%nat).
  { induction a as [|c a IH]; intros b; simpl; [reflexivity|]. now rewrite IH. }
  revert s2. induction s1 as [|c s1 IH]; intros [|c' s2] H; simpl in *.
  - reflexivity.
  - apply (f_equal String.length) in H. simpl in H. rewrite !L in H.
    simpl in H. lia.
  - apply (f_equal String.length) in H. simpl in H. rewrite !L in H.
    simpl in H. lia.
  - injection H as -> H. f_equal. now apply IH.
Qed.

Lemma key_includes_size (p q : Problem) :
  type p = type q -> dimensions_or_default p = dimensions_or_default q ->
  _generateProblemKey p = _generateProblemKey q -> size p = size q.
Proof.
  intros Ht Hd. rewrite !key_components, Ht, Hd. intros H.
  do 2 apply String.app_inj in H.
  apply string_app_inj_r in H. now apply toString_inj.
Qed.

Lemma hyphenated_kind_is_invalid {M : MathImpl} (pattern : Patterns)
    (problem : Problem) :
  type problem = "graph-coloring"%string \/ type problem = "subset-sum"%string ->
  _isPatternValid pattern problem = false.
Proof.
  intros [H|H]; unfold _isPatternValid, _generateProblemKey; rewrite H;
    reflexivity.
Qed.

(** C1 on the code: the reuse the claim describes does not happen.  For
    the kinds [graph-coloring] and [subset-sum] no cache entry is ever
    valid, because the validity check splits the key at the hyphen inside
    the kind: every call analyses the histories again, also a call with the
    very problem of the call before.  For every kind, an entry stored for
    one size is not found by a problem of another size, however close. *)
Theorem cache_reuse_is_missed {M : MathImpl} :
  (forall space problem this,
     type problem = "graph-coloring"%string
     \/ type problem = "subset-sum"%string ->
     cached_pattern problem this = None
     /\ _extractPatterns space problem this
        = (analyze space this, with_pattern this problem (analyze space this)))
  /\ (forall p q this patterns,
        type p = type q ->
        dimensions_or_default p = dimensions_or_default q ->
        size p <> size q ->
        patternCache this !! _generateProblemKey q = None ->
        cached_pattern q (with_pattern this p patterns) = None).
Proof.
  split.
  - intros space problem this H.
    assert (E : cached_pattern problem this = None).
    { unfold cached_pattern.
      destruct (patternCache this !! _) as [c|]; [|reflexivity].
      now rewrite hyphenated_kind_is_invalid. }
    split; [exact E|]. unfold _extractPatterns. now rewrite E.
  - intros p q this patterns Ht Hd Hs Hq. unfold cached_pattern, with_pattern.
    simpl. rewrite lookup_insert_ne; [now rewrite Hq|].
    intros E. apply Hs. now apply key_includes_size.
Qed.

Lemma cache_reuse_is_missed_witness :
  cached_pattern coloring20 after_first_call = None
  /\ _extractPatterns
       {| sp_dimensions := 11; sp_size := 20; sp_constraints := [];
          vectors := [] |} coloring20 after_first_call
     = (analyze {| sp_dimensions := 11; sp_size := 20; sp_constraints := [];
                   vectors := [] |} after_first_call,
        with_pattern after_first_call coloring20
          (analyze {| sp_dimensions := 11; sp_size := 20; sp_constraints := [];
                      vectors := [] |} after_first_call)).
Proof.
  apply (proj1 cache_reuse_is_missed). left. reflexivity.
Defined.

(** Two consecutive calls with the same colouring instance: the first
    call's pattern (no correlation at all) is in the cache under the
    problem's key, and the second call computes three correlations
    afresh. *)
Lemma second_call_recomputes :
  let key := _generateProblemKey coloring20 in
  let second := snd (solve coloring20 0 5 after_first_call) in
  (correlationStrengths <$> patternCache after_first_call !! key) = Some []
  /\ cached_pattern coloring20 after_first_call = None
  /\ (length <$> (correlationStrengths <$> patternCache second !! key))
     = Some 3%nat.
Proof. repeat split; vm_compute; reflexivity. Qed.

(** A kind without a hyphen at the very same size does reuse its entry. *)
Lemma same_problem_reuses_entry :
  let this := snd (solve (unit_clause 20) 0 5 new_NPSolver) in
  is_Some (cached_pattern (unit_clause 20) this)
  /\ cached_pattern (unit_clause 20) this
     = patternCache this !! _generateProblemKey (unit_clause 20).
Proof. split; vm_compute; eauto. Qed.

(** ** Colours *)

Lemma infinity_not_below (v : float) : (infinity <? v) = false.
Proof.
  rewrite ltb_spec. change (Prim2SF infinity) with (S754_infinity false).
  unfold SFltb. now destruct (Prim2SF v) as [[]|[]| |[] ? ?].
Qed.

Lemma min2_choice (a b : float) :
  is_nan a = false -> is_nan b = false ->
  is_nan (min2 a b) = false
  /\ (min2 a b = b \/ (min2 a b = a /\ ((a <? b) = true \/ (b <? a) = false))).
Proof.
  intros Ha Hb. unfold min2. rewrite Ha, Hb. simpl.
  destruct (a <? b) eqn:E1; [auto|].
  destruct (b <? a) eqn:E2; [auto|].
  destruct (get_sign a); auto.
Qed.

Lemma Math_min_member (l : list float) (a : float) :
  is_nan a = false -> Forall (fun v => is_nan v = false) l ->
  is_nan (fold_left min2 l a) = false
  /\ (fold_left min2 l a = a \/ In (fold_left min2 l a) l).
Proof.
  revert a. induction l as [|b l IH]; intros a Ha Hl; simpl; [auto|].
  inversion Hl as [|? ? Hb Hl']; subst.
  destruct (min2_choice a b Ha Hb) as [Hn Hc].
  destruct (IH (min2 a b) Hn Hl') as [Hr [E|Hin]]; split; auto.
  destruct Hc as [Eb|[Ea _]]; rewrite E; auto.
Qed.

Lemma indexOf_from_member (l : list float) (v : float) (i : Z) :
  is_nan v = false -> In v l ->
  (i <= indexOf_from l v i < i + Z.of_nat (length l))%Z.
Proof.
  intros Hv. revert i. induction l as [|w l IH]; intros i Hin; simpl in *.
  - contradiction.
  - destruct (w =? v) eqn:E; [lia|].
    destruct Hin as [->|Hin].
    + unfold is_nan in Hv. rewrite E in Hv. discriminate.
    + specialize (IH (i + 1)%Z Hin). lia.
Qed.

(** When no score is NaN, the colour picked by
    [nodeValues.indexOf(Math.min(...nodeValues))] is an index of
    [nodeValues]. *)
Lemma min_index_in_range (nodeValues : list float) :
  nodeValues <> [] -> Forall (fun v => is_nan v = false) nodeValues ->
  (0 <= indexOf nodeValues (Math_min nodeValues) < Z.of_nat (length nodeValues))%Z.
Proof.
  intros Hne Hl. unfold indexOf, Math_min.
  destruct nodeValues as [|b l]; [congruence|]. simpl fold_left.
  inversion Hl as [|? ? Hb Hl']; subst.
  assert (E : min2 infinity b = b).
  { unfold min2. rewrite Hb. simpl. rewrite infinity_not_below.
    destruct (b <? infinity); reflexivity. }
  rewrite E.
  destruct (Math_min_member l b Hb Hl') as [Hn Hc].
  apply indexOf_from_member; [exact Hn|].
  destruct Hc as [->|Hin]; [now left|now right].
Qed.

(** C10 on the code: a projection without two coordinates makes every
    score NaN, [indexOf] does not find NaN, and every node gets the colour
    -1.  This is what the first call on a new engine returns (the histories
    are too short for any correlation), with [maxColors = 3]. *)
Theorem first_call_colors_out_of_range :
  _solveGraphColoring [{| coordinates := []; value := 0%float |}] coloring20
  = Ok (ColoringSolution [-1; -1; -1]%Z 0%float)
  /\ verdict (fst (solve coloring20 0 5 new_NPSolver))
     = Ok (ColoringSolution [-1; -1; -1]%Z 0%float, false).
Proof. split; vm_compute; reflexivity. Qed.

(** ** The drift step and its inputs *)

Lemma for_each_indexed {St} (P : nat -> St -> Prop)
    (body : nat -> St -> outcome St) :
  (forall i s s', P i s -> body i s = Ok s' -> P (S i) s') ->
  forall n from s s',
    P from s -> for_each body from n s = Ok s' -> P (from + n)%nat s'.
Proof.
  intros Hb. induction n as [|n IH]; intros from s s' Hs; simpl.
  - intros [= <-]. now rewrite Nat.add_0_r.
  - destruct (body from s) as [s1| |] eqn:E; simpl; try discriminate.
    intros H. rewrite <- Nat.add_succ_comm. eapply IH; [|exact H]. eauto.
Qed.


Lemma alloc_spec (o : Heap.object) (h : Heap.heap) :
  h !! fst (Heap.alloc o h) = None /\ snd (Heap.alloc o h) = <[fst (Heap.alloc o h) := o]> h.
Proof.
  unfold Heap.alloc. simpl. split; [|reflexivity].
  apply not_elem_of_dom. apply is_fresh.
Qed.

Lemma frame_fresh (h0 h : Heap.heap) (l : Heap.loc) :
  h0 ⊆ h -> h !! l = None -> h0 !! l = None.
Proof.
  intros Hs Hl. destruct (h0 !! l) as [o|] eqn:E; [|reflexivity].
  rewrite (lookup_weaken _ _ _ _ E Hs) in Hl. discriminate.
Qed.

Lemma write_number_frame (h0 h h' : Heap.heap) (a : Heap.loc) (j : nat) (v : float) :
  h0 !! a = None -> h0 ⊆ h -> Heap.write_number a j v h = Ok h' -> h0 ⊆ h'.
Proof.
  unfold Heap.write_number. intros Ha Hs.
  destruct (h !! a) as [[elems|refs]|]; try discriminate.
  intros [= <-]. now apply insert_subseteq_r.
Qed.

Lemma write_ref_frame (h0 h h' : Heap.heap) (vs : Heap.loc) (i : nat) (r : Heap.loc) :
  h0 !! vs = None -> h0 ⊆ h -> Heap.write_ref vs i r h = Ok h' -> h0 ⊆ h'.
Proof.
  unfold Heap.write_ref, Heap.read_refs. intros Ha Hs.
  destruct (h !! vs) as [[elems|refs]|]; try discriminate.
  simpl. intros [= <-]. now apply insert_subseteq_r.
Qed.

Section Frame.
Context {M : MathImpl}.

Lemma drift_entry_frame (h0 h h' : Heap.heap) problem driftState i vector dv j :
  h0 !! dv = None -> h0 ⊆ h ->
  Heap.drift_entry problem driftState i vector dv j h = Ok h' -> h0 ⊆ h'.
Proof.
  unfold Heap.drift_entry. intros Hd Hs.
  destruct (Heap.read_number vector j h) as [v1| |]; try discriminate. simpl.
  destruct (Heap.write_number dv j _ h) as [h1| |] eqn:E1; try discriminate. simpl.
  destruct (Heap.read_number dv j h1) as [d| |]; try discriminate. simpl.
  intros E2.
  eapply write_number_frame; [exact Hd| |exact E2].
  eapply write_number_frame; eauto.
Qed.

Lemma write_number_other (h h' : Heap.heap) (a l : Heap.loc) (j : nat) (v : float) :
  Heap.write_number a j v h = Ok h' -> l <> a -> h' !! l = h !! l.
Proof.
  unfold Heap.write_number.
  destruct (h !! a) as [[elems|refs]|]; try discriminate.
  intros [= <-] Hne. now apply lookup_insert_ne.
Qed.

Lemma drift_entry_other (h h' : Heap.heap) problem driftState i vector dv j l :
  Heap.drift_entry problem driftState i vector dv j h = Ok h' -> l <> dv ->
  h' !! l = h !! l.
Proof.
  unfold Heap.drift_entry. intros H Hne.
  destruct (Heap.read_number vector j h) as [v1| |]; try discriminate. simpl in H.
  destruct (Heap.write_number dv j _ h) as [h1| |] eqn:E1; try discriminate.
  simpl in H.
  destruct (Heap.read_number dv j h1) as [d| |]; try discriminate. simpl in H.
  rewrite (write_number_other _ _ _ _ _ _ H Hne).
  now rewrite (write_number_other _ _ _ _ _ _ E1 Hne).
Qed.

Lemma drift_round_inv (h0 : Heap.heap) problem driftState vs n i s s' :
  h0 !! vs = None ->
  round_inv h0 vs n i s ->
  Heap.drift_round problem driftState vs i s = Ok s' ->
  round_inv h0 vs n (S i) s'.
Proof.
  intros Hvs [Hs (refs & Hrefs & Hlen & Hfresh)].
  destruct s as [h ts]. simpl in *.
  unfold Heap.drift_round, Heap.read_ref, Heap.read_refs, Heap.read_elems. rewrite Hrefs. simpl.
  destruct (refs !! i) as [vector|] eqn:Ei; [|discriminate]. simpl.
  destruct (h !! vector) as [[elems|?]|]; try discriminate. simpl.
  set (dv := fresh (dom h)).
  assert (Hdv : h !! dv = None) by apply (alloc_spec (Heap.VectorList []) h).
  assert (Hdv0 : h0 !! dv = None) by (eapply frame_fresh; eauto).
  assert (Hne : vs <> dv) by (intros ->; congruence).
  destruct (for_each _ 0 _ _) as [h2| |] eqn:E2; try discriminate. simpl.
  assert (I2 : h0 ⊆ h2 /\ h2 !! vs = Some (Heap.VectorList refs)).
  { eapply (for_each_invariant
              (fun h => h0 ⊆ h /\ h !! vs = Some (Heap.VectorList refs)));
      [|  |exact E2].
    - intros j ha hb [Ha Hb] Hstep. split.
      + eapply drift_entry_frame; [exact Hdv0|exact Ha|exact Hstep].
      + now rewrite (drift_entry_other _ _ _ _ _ _ _ _ _ Hstep Hne).
    - split; [now apply insert_subseteq_r|].
      now rewrite lookup_insert_ne by congruence. }
  destruct I2 as [Hs2 Hr2].
  unfold Heap.write_ref, Heap.read_refs. rewrite Hr2. simpl.
  rewrite lookup_insert_ne by congruence.
  destruct (h2 !! dv) as [[drifted|?]|]; try discriminate. simpl.
  intros [= <-]. split; simpl.
  - now apply insert_subseteq_r.
  - exists (<[i := dv]> refs). rewrite lookup_insert_eq, length_insert.
    repeat split; auto.
    intros k r Hk. destruct (Nat.eq_dec k i) as [->|Hki].
    + rewrite list_lookup_insert_eq by (apply lookup_lt_Some in Ei; lia).
      now intros [= <-].
    + rewrite list_lookup_insert_ne by congruence.
      apply Hfresh. lia.
Qed.

End Frame.

(** The drift step writes only to arrays it allocates. *)
Lemma drift_frame {M : MathImpl} (space : Heap.SpaceRef)
    (problem : Problem) (this : NPSolver) (h : Heap.heap)
    (space' : Heap.SpaceRef) (this' : NPSolver) (h' : Heap.heap) :
  Heap._applyQuantumDrift space problem this h = Ok (space', this', h') ->
  (forall l o, h !! l = Some o -> h' !! l = Some o)
  /\ h !! Heap.r_vectors space' = None
  /\ exists refs',
       h' !! Heap.r_vectors space' = Some (Heap.VectorList refs')
       /\ Forall (fun r => h !! r = None) refs'.
Proof.
  unfold Heap._applyQuantumDrift, Heap.read_refs.
  destruct (h !! Heap.r_vectors space) as [[?|refs]|]; try discriminate. simpl.
  set (vs := fresh (dom h)).
  assert (Hvs : h !! vs = None) by apply (alloc_spec (Heap.VectorList []) h).
  destruct (for_each _ 0 _ _) as [[h2 ts]| |] eqn:E; try discriminate. simpl.
  intros [= <- <- <-]. simpl.
  assert (I : round_inv h vs (length refs) (0 + length refs) (h2, ts)).
  { eapply (for_each_indexed (round_inv h vs (length refs))); [| |exact E].
    - intros i s s'. now apply drift_round_inv.
    - split; simpl; [now apply insert_subseteq|].
      exists refs. rewrite lookup_insert_eq. repeat split; auto. lia. }
  destruct I as [Hs (refs' & Hr & Hlen & Hfresh)]. simpl in *.
  split; [|split; [exact Hvs|]].
  - intros l o Hl. eapply lookup_weaken; eauto.
  - exists refs'. split; [exact Hr|].
    apply Forall_lookup. intros k r Hk. apply (Hfresh k r); [|exact Hk].
    apply lookup_lt_Some in Hk. lia.
Qed.


Lemma for_each_simulates {St A} (R : St -> A -> Prop)
    (body : nat -> St -> outcome St) (f : A -> nat -> A) (bound : nat) :
  (forall i s a, (i < bound)%nat -> R s a ->
                 exists s', body i s = Ok s' /\ R s' (f a i)) ->
  forall n from s a,
    (from + n <= bound)%nat -> R s a ->
    exists s', for_each body from n s = Ok s'
               /\ R s' (fold_left f (seq from n) a).
Proof.
  intros Hstep. induction n as [|n IH]; intros from s a Hb HR; simpl.
  - eauto.
  - destruct (Hstep from s a) as (s1 & E1 & R1); [lia|exact HR|].
    rewrite E1. simpl. apply IH; [lia|exact R1].
Qed.

Section Refinement.
Context {M : MathImpl}.

Lemma load_vectors_holds (h : Heap.heap) refs vs :
  Heap.load_vectors refs h = Some vs <-> holds h refs vs.
Proof.
  unfold Heap.load_vectors, holds. rewrite mapM_Some.
  split; intros H; (eapply Forall2_impl; [exact H|]); intros r e; simpl.
  - destruct (h !! r) as [[?|?]|]; congruence.
  - now intros ->.
Qed.

Lemma drift_entries (problem : Problem) (driftState : float) (i : nat)
    (vector dv : Heap.loc) (elems : list float) (h : Heap.heap) :
  h !! vector = Some (Heap.Float64Array elems) -> vector <> dv ->
  forall n from d,
    for_each (Heap.drift_entry problem driftState i vector dv) from n
      (<[dv := Heap.Float64Array d]> h)
    = Ok (<[dv := Heap.Float64Array
               (fold_left
                  (fun driftedVector j =>
                     let driftFactor := _calculateDriftFactor problem i j in
                     let driftedVector :=
                       <[j := (get elems j
                               + (get elems j * driftFactor * driftState))%float]>
                         driftedVector in
                     <[j := Math_max [0%float;
                                      Math_min [1%float; get driftedVector j]]]>
                       driftedVector)
                  (seq from n) d)]> h).
Proof.
  intros Hv Hne. induction n as [|n IH]; intros from d; simpl; [reflexivity|].
  unfold Heap.drift_entry at 1, Heap.read_number, Heap.write_number.
  rewrite lookup_insert_ne by congruence. rewrite Hv. simpl.
  rewrite !lookup_insert_eq. simpl.
  rewrite !lookup_insert_eq. simpl.
  rewrite !insert_insert_eq. apply IH.
Qed.

Lemma drift_round_simulates (problem : Problem) (driftState : float)
    (vsloc : Heap.loc) (n i : nat) (h : Heap.heap) (ts : list (list float))
    (refs : list Heap.loc) (vs : list (list float)) :
  (i < n)%nat -> length refs = n ->
  h !! vsloc = Some (Heap.VectorList refs) -> holds h refs vs ->
  exists h' refs',
    Heap.drift_round problem driftState vsloc i (h, ts)
    = Ok (h', _pushToTickStack (drift_vector problem driftState i (nth i vs [])) ts)
    /\ length refs' = n
    /\ h' !! vsloc = Some (Heap.VectorList refs')
    /\ holds h' refs' (<[i := drift_vector problem driftState i (nth i vs [])]> vs).
Proof.
  intros Hi Hlen Hvs Hh.
  destruct (lookup_lt_is_Some_2 refs i) as [vector Ei]; [lia|].
  destruct (Forall2_lookup_l _ _ _ _ _ Hh Ei) as (elems & Ee & Hvec).
  unfold Heap.drift_round, Heap.read_ref, Heap.read_refs, Heap.read_elems, Heap.alloc.
  rewrite Hvs. simpl. rewrite Ei. simpl. rewrite Hvec. simpl.
  set (dv := fresh (dom h)).
  assert (Hdv : h !! dv = None) by (apply not_elem_of_dom, is_fresh).
  assert (Hne1 : vector <> dv) by congruence.
  assert (Hne2 : vsloc <> dv) by congruence.
  rewrite (drift_entries problem driftState i vector dv elems h Hvec Hne1).
  simpl. unfold Heap.write_ref, Heap.read_refs.
  rewrite lookup_insert_ne by congruence. rewrite Hvs. simpl.
  rewrite lookup_insert_ne by congruence. rewrite lookup_insert_eq. simpl.
  rewrite (nth_lookup_Some _ _ [] _ Ee).
  change (fold_left _ (seq 0 (length elems)) (repeat 0%float (length elems)))
    with (drift_vector problem driftState i elems).
  eexists. exists (<[i := dv]> refs). split; [reflexivity|].
  rewrite length_insert, lookup_insert_eq. repeat split; auto.
  apply Forall2_insert.
  - eapply Forall2_impl; [exact Hh|]. intros r e Hr. simpl in Hr.
    rewrite !lookup_insert_ne by congruence. exact Hr.
  - rewrite lookup_insert_ne by congruence. apply lookup_insert_eq.
Qed.

(** On a store that holds the space's vectors, the drift step over the
    store returns, and what it returns holds the space and the engine that
    the drift step over values computes. *)
Lemma drift_over_store_refines (space : Heap.SpaceRef) (problem : Problem)
    (this : NPSolver) (h : Heap.heap) (sp : Space) :
  Heap.load_space space h = Some sp ->
  exists space' h',
    Heap._applyQuantumDrift space problem this h
    = Ok (space', snd (_applyQuantumDrift sp problem this), h')
    /\ Heap.load_space space' h' = Some (fst (_applyQuantumDrift sp problem this)).
Proof.
  unfold Heap.load_space.
  destruct (h !! Heap.r_vectors space) as [[?|refs]|] eqn:Er; try discriminate.
  destruct (Heap.load_vectors refs h) as [vs|] eqn:Ev; [|discriminate].
  intros [= <-]. apply load_vectors_holds in Ev.
  unfold Heap._applyQuantumDrift, _applyQuantumDrift, Heap.read_refs, Heap.alloc.
  rewrite Er. simpl.
  set (vsloc := fresh (dom h)).
  assert (Hvs : h !! vsloc = None) by (apply not_elem_of_dom, is_fresh).
  set (ds := (Math_sin _ * f0_1)%float).
  assert (Hl : length vs = length refs) by (symmetry; eapply Forall2_length; eauto).
  destruct (for_each_simulates
              (fun (s : Heap.heap * list (list float)) (a : list (list float) * list (list float)) =>
                 snd s = snd a
                 /\ exists refs',
                      length refs' = length refs
                      /\ fst s !! vsloc = Some (Heap.VectorList refs')
                      /\ holds (fst s) refs' (fst a))
              (Heap.drift_round problem ds vsloc)
              (fun '(vs, ts) i =>
                 let vector := nth i vs [] in
                 let driftedVector := drift_vector problem ds i vector in
                 (<[i := driftedVector]> vs, _pushToTickStack driftedVector ts))
              (length refs))
    with (n := length refs) (from := 0%nat)
         (s := (<[vsloc := Heap.VectorList refs]> h, tickStack this))
         (a := (vs, tickStack this))
    as ([h2 ts2] & E & Hts & refs2 & Hlen2 & Hr2 & Hh2).
  - intros i [ha tsa] [pvs pts] Hi [Hs (refs' & Hlen' & Hr' & Hh')].
    simpl in *. subst pts.
    destruct (drift_round_simulates problem ds vsloc (length refs) i ha tsa
                refs' pvs Hi Hlen' Hr' Hh') as (h' & refs'' & E' & ? & ? & ?).
    eexists. split; [exact E'|]. simpl. eauto.
  - lia.
  - simpl. split; [reflexivity|]. exists refs.
    rewrite lookup_insert_eq. repeat split; auto.
    eapply Forall2_impl; [exact Ev|]. intros r e Hr. simpl in Hr.
    rewrite lookup_insert_ne by congruence. exact Hr.
  - rewrite Hl. rewrite E. simpl.
    destruct (fold_left _ (seq 0 (length refs)) (vs, tickStack this))
      as [pvs pts]. simpl in *. subst pts.
    eexists. eexists. split; [reflexivity|]. simpl.
    rewrite Hr2. apply load_vectors_holds in Hh2. now rewrite Hh2.
Qed.

End Refinement.

Lemma load_space_frame (space : Heap.SpaceRef) (h h' : Heap.heap) (sp : Space) :
  (forall l o, h !! l = Some o -> h' !! l = Some o) ->
  Heap.load_space space h = Some sp -> Heap.load_space space h' = Some sp.
Proof.
  intros Hf. unfold Heap.load_space.
  destruct (h !! Heap.r_vectors space) as [[?|refs]|] eqn:Er; try discriminate.
  destruct (Heap.load_vectors refs h) as [vs|] eqn:Ev; [|discriminate].
  intros [= <-]. rewrite (Hf _ _ Er).
  apply load_vectors_holds in Ev.
  assert (Ev' : Heap.load_vectors refs h' = Some vs).
  { apply load_vectors_holds. eapply Forall2_impl; [exact Ev|].
    intros r e Hr. now apply Hf. }
  now rewrite Ev'.
Qed.

(** C9: on a store that holds the vectors of the space, the drift step
    returns, and it writes only to arrays it allocates.  Every array of the
    store it is given is in the resulting store with the entries it had,
    so the input space still reads as before; the space it returns refers
    to a new array of vectors, every vector in it is a new typed array, and
    these hold the drifted values (those of the step over values). *)
Theorem drift_leaves_inputs_unchanged {M : MathImpl} (space : Heap.SpaceRef)
    (problem : Problem) (this : NPSolver) (h : Heap.heap) (sp : Space) :
  Heap.load_space space h = Some sp ->
  exists space' h',
    Heap._applyQuantumDrift space problem this h
    = Ok (space', snd (_applyQuantumDrift sp problem this), h')
    /\ (forall l o, h !! l = Some o -> h' !! l = Some o)
    /\ Heap.load_space space h' = Some sp
    /\ h !! Heap.r_vectors space' = None
    /\ (exists refs',
          h' !! Heap.r_vectors space' = Some (Heap.VectorList refs')
          /\ Forall (fun r => h !! r = None) refs')
    /\ Heap.load_space space' h'
       = Some (fst (_applyQuantumDrift sp problem this)).
Proof.
  intros Hl.
  destruct (drift_over_store_refines space problem this h sp Hl)
    as (space' & h' & E & Hl').
  destruct (drift_frame space problem this h _ _ _ E) as (Hf & Hv & Hr).
  exists space', h'. repeat split; auto.
  eapply load_space_frame; eauto.
Qed.

Lemma drift_leaves_inputs_unchanged_witness :
  exists space' h',
    Heap._applyQuantumDrift sample_space_ref coloring20 new_NPSolver sample_store
    = Ok (space', snd (_applyQuantumDrift sample_space coloring20 new_NPSolver), h')
    /\ (forall l o, sample_store !! l = Some o -> h' !! l = Some o)
    /\ Heap.load_space sample_space_ref h' = Some sample_space
    /\ sample_store !! Heap.r_vectors space' = None
    /\ (exists refs',
          h' !! Heap.r_vectors space' = Some (Heap.VectorList refs')
          /\ Forall (fun r => sample_store !! r = None) refs')
    /\ Heap.load_space space' h'
       = Some (fst (_applyQuantumDrift sample_space coloring20 new_NPSolver)).
Proof.
  apply (drift_leaves_inputs_unchanged sample_space_ref coloring20 new_NPSolver
           sample_store sample_space).
  vm_compute. reflexivity.
Defined.

(** * Further properties *)

(** ** Loops that run to the end *)

Lemma fold_left_indexed {A} (P : nat -> A -> Prop) (f : A -> nat -> A)
    (n from : nat) (a : A) :
  (forall i x, (from <= i < from + n)%nat -> P i x -> P (S i) (f x i)) ->
  P from a -> P (from + n)%nat (fold_left f (seq from n) a).
Proof.
  revert from a. induction n as [|n IH]; intros from a Hf Ha; simpl.
  - now rewrite Nat.add_0_r.
  - rewrite <- Nat.add_succ_comm. apply IH.
    + intros i x Hi. apply Hf. lia.
    + apply Hf; [lia|exact Ha].
Qed.

Lemma for_each_total {St} (body : nat -> St -> outcome St) (n from : nat)
    (s : St) :
  (forall i x, exists x', body i x = Ok x') ->
  exists s', for_each body from n s = Ok s'.
Proof.
  intros Hb. revert from s. induction n as [|n IH]; intros from s; simpl.
  - eauto.
  - destruct (Hb from s) as [s1 ->]. simpl. apply IH.
Qed.

(** ** Numbers *)

Module NumberFacts.
Import NumberOrder.

Lemma SFlt_le a b : SFltb a b = true -> SFleb a b = true.
Proof. unfold SFleb, SFltb. by_kinds a b; lex_compare. Qed.

Lemma SFtotal a b :
  a <> S754_nan -> b <> S754_nan -> SFltb a b = false -> SFleb b a = true.
Proof.
  unfold SFleb, SFltb.
  destruct a as [[]|[]| |[] ? ?], b as [[]|[]| |[] ? ?];
    simpl; try congruence; intros _ _; lex_compare.
Qed.

Lemma SFle_lt_trans a b c :
  SFleb a b = true -> SFltb b c = true -> SFltb a c = true.
Proof.
  unfold SFleb, SFltb.
  destruct a as [[]|[]| |[] ? ?], b as [[]|[]| |[] ? ?],
    c as [[]|[]| |[] ? ?];
    simpl; try discriminate; try reflexivity; intros; lex_compare.
Qed.

Lemma SFle_trans a b c :
  SFleb a b = true -> SFleb b c = true -> SFleb a c = true.
Proof.
  unfold SFleb.
  destruct a as [[]|[]| |[] ? ?], b as [[]|[]| |[] ? ?],
    c as [[]|[]| |[] ? ?];
    simpl; try discriminate; try reflexivity; intros; lex_compare.
Qed.

Lemma SFle_not_nan a b : SFleb a b = true -> a <> S754_nan /\ b <> S754_nan.
Proof. unfold SFleb. by_kinds a b; intros; split; discriminate. Qed.

Lemma binary_round_aux_shape s m e l :
  match binary_round_aux prec emax s m e l with
  | S754_zero s' | S754_infinity s' | S754_finite s' _ _ => s' = s
  | S754_nan => True
  end.
Proof.
  unfold binary_round_aux.
  destruct (shr_fexp _ _ _ _ _) as [mrs' e'].
  destruct (shr_fexp _ _ _ _ _) as [mrs'' e''].
  destruct (shr_m mrs''); [| destruct (Z.leb _ _) |]; auto.
Qed.

Lemma SFmul_comm a b : SF64mul a b = SF64mul b a.
Proof.
  unfold SF64mul, SFmul.
  destruct a as [sa|sa| |sa ma ea], b as [sb|sb| |sb mb eb];
    try reflexivity; try (now rewrite xorb_comm).
  now rewrite xorb_comm, Pos.mul_comm, Z.add_comm.
Qed.

(** [|d|] is never below the product of a positive constant and a
    non-positive number. *)
Lemma SFabs_not_below t d mc ec :
  SFleb t (S754_zero false) = true ->
  SFltb (SFabs d) (SF64mul (S754_finite false mc ec) t) = false.
Proof.
  unfold SF64mul, SFmul, SFleb, SFltb.
  destruct t as [st|[]| |[] mt et]; simpl; try discriminate; intros _.
  - destruct d as [?|?| |? ? ?]; reflexivity.
  - destruct d as [?|?| |? ? ?]; reflexivity.
  - pose proof (binary_round_aux_shape true (Z.pos (mc * mt)) (ec + et) loc_Exact)
      as H.
    destruct (binary_round_aux _ _ _ _ _ _) as [s'|s'| |s' ? ?]; subst;
      destruct d as [?|?| |? ? ?]; reflexivity.
Qed.

Lemma is_nan_false (v : float) : Prim2SF v <> S754_nan -> is_nan v = false.
Proof.
  intros H. destruct (is_nan v) eqn:E; [|reflexivity].
  now apply nan_spec in E.
Qed.

Lemma mul_comm (a b : float) : a * b = b * a.
Proof. apply Prim2SF_inj. rewrite !mul_spec. apply SFmul_comm. Qed.

Lemma lt_le (a b : float) : (a <? b) = true -> (a <=? b) = true.
Proof. rewrite ltb_spec, leb_spec. apply SFlt_le. Qed.

Lemma not_lt_le (a b : float) :
  is_nan a = false -> is_nan b = false -> (a <? b) = false -> (b <=? a) = true.
Proof.
  intros Ha Hb. rewrite ltb_spec, leb_spec.
  apply SFtotal; now apply not_nan_spec.
Qed.

Lemma le_lt_trans (a b c : float) :
  (a <=? b) = true -> (b <? c) = true -> (a <? c) = true.
Proof. rewrite leb_spec, !ltb_spec. apply SFle_lt_trans. Qed.

Lemma le_trans (a b c : float) :
  (a <=? b) = true -> (b <=? c) = true -> (a <=? c) = true.
Proof. rewrite !leb_spec. apply SFle_trans. Qed.

Lemma le_not_nan (a b : float) :
  (a <=? b) = true -> is_nan a = false /\ is_nan b = false.
Proof.
  rewrite leb_spec. intros H. apply SFle_not_nan in H.
  split; apply is_nan_false; tauto.
Qed.

Lemma abs_not_below (d t : float) :
  (t <=? 0) = true -> (abs d <? f0_001 * t) = false.
Proof.
  rewrite leb_spec, ltb_spec, abs_spec, mul_spec. intros H.
  assert (E : exists mc ec, Prim2SF f0_001 = S754_finite false mc ec)
    by (vm_compute; eauto).
  destruct E as (mc & ec & ->). now apply SFabs_not_below.
Qed.

Lemma max2_upper (a b : float) :
  is_nan (max2 a b) = false ->
  is_nan a = false /\ is_nan b = false
  /\ (a <=? max2 a b) = true /\ (b <=? max2 a b) = true.
Proof.
  unfold max2. destruct (is_nan a) eqn:Ea; [discriminate|].
  destruct (is_nan b) eqn:Eb; [discriminate|]. simpl. intros _.
  split; [reflexivity|]. split; [reflexivity|].
  destruct (a <? b) eqn:E1.
  - split; [now apply lt_le|now apply leb_refl].
  - destruct (b <? a) eqn:E2.
    + split; [now apply leb_refl|now apply lt_le].
    + destruct (get_sign a).
      * split; [now apply not_lt_le|now apply leb_refl].
      * split; [now apply leb_refl|now apply not_lt_le].
Qed.

Lemma fold_max2_upper (l : list float) (a : float) :
  is_nan (fold_left max2 l a) = false ->
  (a <=? fold_left max2 l a) = true
  /\ List.Forall (fun v => (v <=? fold_left max2 l a) = true) l.
Proof.
  revert a. induction l as [|b l IH]; intros a H; simpl in *.
  - split; [now apply leb_refl|constructor].
  - destruct (IH _ H) as [Hm Hl].
    destruct (le_not_nan _ _ Hm) as [Hn _].
    destruct (max2_upper a b Hn) as (_ & _ & Ha & Hb).
    split; [eapply le_trans; eauto|].
    constructor; [eapply le_trans; eauto|exact Hl].
Qed.

Lemma Math_max_below (l : list float) (m : float) :
  (Math_max l <? m) = true -> List.Forall (fun v => (v <? m) = true) l.
Proof.
  intros H. unfold Math_max in *.
  assert (Hn : is_nan (fold_left max2 l neg_infinity) = false).
  { destruct (is_nan _) eqn:E; [|reflexivity].
    now rewrite (nan_not_lt _ m E) in H. }
  destruct (fold_max2_upper l neg_infinity Hn) as [_ Hl].
  eapply List.Forall_impl; [|exact Hl]. intros v Hv. simpl in Hv.
  eapply le_lt_trans; eauto.
Qed.

Lemma clamp_range (v : float) : clamped (Math_max [0; Math_min [1; v]]).
Proof.
  unfold clamped, Math_max, Math_min. simpl.
  replace (max2 neg_infinity 0) with 0 by reflexivity.
  replace (min2 infinity 1) with 1 by reflexivity.
  destruct (is_nan v) eqn:Ev.
  - left. unfold min2. rewrite Ev. simpl. reflexivity.
  - right.
    assert (Hm : is_nan (min2 1 v) = false /\ (min2 1 v <=? 1) = true).
    { unfold min2. rewrite Ev. simpl.
      destruct (1 <? v) eqn:E1; [split; reflexivity|].
      destruct (v <? 1) eqn:E2; [split; [exact Ev|now apply lt_le]|].
      simpl. split; [exact Ev|]. now apply not_lt_le. }
    destruct Hm as [Hn Hle]. set (m := min2 1 v) in *.
    unfold max2. rewrite Hn. simpl.
    destruct (0 <? m) eqn:E1; [split; [now apply lt_le|exact Hle]|].
    destruct (m <? 0) eqn:E2; [split; reflexivity|].
    simpl. split; reflexivity.
Qed.

End NumberFacts.

(** ** Tours *)

Lemma imap_fst {A B} (f : nat -> A -> A * B) (l : list A) :
  (forall i a, fst (f i a) = a) -> map fst (imap f l) = l.
Proof.
  revert f. induction l as [|a l IH]; intros f Hf; [reflexivity|].
  rewrite imap_cons. simpl. rewrite Hf. f_equal. apply IH.
  intros i b. apply Hf.
Qed.

Lemma verifyTSP_permutation (path : list nat) (cities : list City) :
  Permutation path (seq 0 (length cities)) -> _verifyTSP path cities = true.
Proof.
  intros H. unfold _verifyTSP.
  assert (Hl : length path = length cities).
  { rewrite (Permutation_length H). apply length_seq. }
  assert (Hn : NoDup path).
  { apply (NoDup_Permutation_proper _ _ H). apply NoDup_ListNoDup, seq_NoDup. }
  assert (Hr : remove_dups path = path).
  { clear H Hl. induction Hn as [|a l Ha Hn IH]; simpl; [reflexivity|].
    destruct (decide_rel elem_of a l); [contradiction|]. now rewrite IH. }
  rewrite Hr, Hl, Nat.eqb_refl. reflexivity.
Qed.

Lemma solveTSP_permutation (projections : list Projection)
    (problem : Problem) (cities : list City) :
  payload problem = Tour cities ->
  exists path distance,
    _solveTSP projections problem = Ok (TourSolution path distance)
    /\ Permutation path (seq 0 (length cities)).
Proof.
  intros Hp. unfold _solveTSP. rewrite Hp.
  eexists. eexists. split; [reflexivity|].
  rewrite (Permutation_map fst (sort_perm _ _)).
  rewrite imap_fst; [reflexivity|]. now intros i a.
Qed.

(** X1.  For every list of projections and every list of cities, [_solveTSP]
    returns a path that is a permutation of the city indices
    [0 .. cities.length - 1], and [_verifyTSP] accepts that path: a tour
    answer is always reported valid. *)
Theorem tour_is_a_permutation (projections : list Projection)
    (problem : Problem) (cities : list City) :
  payload problem = Tour cities ->
  exists path distance,
    _solveTSP projections problem = Ok (TourSolution path distance)
    /\ Permutation path (seq 0 (length cities))
    /\ _verifyTSP path cities = true.
Proof.
  intros Hp.
  destruct (solveTSP_permutation projections problem cities Hp)
    as (path & distance & E & H).
  exists path, distance. split; [exact E|].
  split; [exact H|]. now apply verifyTSP_permutation.
Qed.

Lemma tour_is_a_permutation_witness :
  exists path distance,
    _solveTSP [{| coordinates := [0x1p-1; 0x1p-2]; value := 1 |}]
      (problem_of "tsp" 20 None
         (Tour [Build_City 0 0; Build_City 10 0; Build_City 10 10]))
    = Ok (TourSolution path distance)
    /\ Permutation path (seq 0 3)
    /\ _verifyTSP path [Build_City 0 0; Build_City 10 0; Build_City 10 10] = true.
Proof.
  apply (tour_is_a_permutation
           [{| coordinates := [0x1p-1; 0x1p-2]; value := 1 |}]
           (problem_of "tsp" 20 None
              (Tour [Build_City 0 0; Build_City 10 0; Build_City 10 10]))
           [Build_City 0 0; Build_City 10 0; Build_City 10 10]).
  reflexivity.
Defined.

(** ** Satisfaction *)




(** ** Colourings *)

Lemma indexOf_from_range (l : list float) (v : float) (i : Z) :
  indexOf_from l v i = (-1)%Z
  \/ (i <= indexOf_from l v i < i + Z.of_nat (length l))%Z.
Proof.
  revert i. induction l as [|w l IH]; intros i; simpl; [now left|].
  destruct (w =? v); [right; lia|].
  destruct (IH (i + 1)%Z) as [->|H]; [now left|right; lia].
Qed.

Lemma solveGraphColoring_returns (projections : list Projection)
    (problem : Problem) (graph : list (list Z)) (maxColors : Z) :
  payload problem = Coloring graph maxColors ->
  (0 <= maxColors < 2 ^ 32)%Z ->
  exists coloring colorCount,
    _solveGraphColoring projections problem
    = Ok (ColoringSolution coloring colorCount).
Proof.
  intros Hp Hm. unfold _solveGraphColoring. rewrite Hp.
  match goal with
  | |- context [for_each ?b 0 ?n ?s] =>
      destruct (for_each_total b n 0 s) as [c E]
  end.
  { intros i x. unfold Array_fill.
    destruct (Z.leb_spec 0 maxColors); [|lia].
    destruct (Z.ltb_spec maxColors (2 ^ 32)); [|lia]. simpl. eauto. }
  rewrite E. simpl. eauto.
Qed.

Lemma solveGraphColoring_entries (projections : list Projection)
    (problem : Problem) (graph : list (list Z)) (maxColors : Z)
    (coloring : list Z) (colorCount : float) :
  payload problem = Coloring graph maxColors ->
  _solveGraphColoring projections problem
  = Ok (ColoringSolution coloring colorCount) ->
  length coloring = length graph
  /\ List.Forall (fun c => (-1 <= c < maxColors)%Z) coloring
  /\ colorCount = Math_max (map Z2F coloring) + 1.
Proof.
  intros Hp. unfold _solveGraphColoring. rewrite Hp.
  destruct (for_each _ 0 _ _) as [c| |] eqn:E; simpl; try discriminate.
  intros [= <- <-].
  assert (I : length c = length graph
              /\ forall k x, (k < 0 + length graph)%nat -> c !! k = Some x ->
                             (-1 <= x < maxColors)%Z).
  { eapply (for_each_indexed
              (fun i (c : list Z) =>
                 length c = length graph
                 /\ forall k x, (k < i)%nat -> c !! k = Some x ->
                                (-1 <= x < maxColors)%Z));
      [| |exact E].
    - intros i s s' [Hl Hr]. unfold Array_fill.
      destruct ((0 <=? maxColors)%Z && (maxColors <? 2 ^ 32)%Z) eqn:Em;
        simpl; [|discriminate].
      apply andb_prop in Em. destruct Em as [Em _]. apply Z.leb_le in Em.
      intros [= <-]. rewrite length_insert. split; [exact Hl|].
      intros k x Hk. destruct (Nat.eq_dec k i) as [->|Hne].
      + intros Hx. apply list_lookup_insert_Some in Hx.
        destruct Hx as [(_ & <- & _)|(Hne & _)]; [|congruence].
        match goal with
        | |- context [indexOf ?nv ?m] =>
            assert (Hn : length nv = Z.to_nat maxColors);
            [|pose proof (indexOf_from_range nv m 0) as Hi]
        end.
        { apply (fold_left_invariant
                   (fun nv => length nv = Z.to_nat maxColors)).
          - intros a color Ha. now rewrite length_insert.
          - apply repeat_length. }
        unfold indexOf. rewrite Hn in Hi. lia.
      + rewrite list_lookup_insert_ne by congruence. apply Hr. lia.
    - split; [apply repeat_length|]. intros k x Hk. lia. }
  destruct I as [Hl Hr]. repeat split; auto.
  apply List.Forall_forall. intros x Hx.
  apply list_elem_of_In, list_elem_of_lookup in Hx. destruct Hx as [k Hk].
  apply (Hr k x); [|exact Hk]. apply lookup_lt_Some in Hk. lia.
Qed.

(** X3.  With small counts (a colour count and a number of nodes up to
    [small_count], so that the spread calls take their arguments),
    [_solveGraphColoring] returns one colour per node; every colour is
    [-1] or a colour below [maxColors], and [colorCount] is the largest
    colour plus one. *)
Theorem coloring_entries_bounded (projections : list Projection)
    (problem : Problem) (graph : list (list Z)) (maxColors : Z) :
  payload problem = Coloring graph maxColors ->
  (0 <= maxColors <= small_count)%Z ->
  (Z.of_nat (length graph) <= small_count)%Z ->
  exists coloring colorCount,
    _solveGraphColoring projections problem
    = Ok (ColoringSolution coloring colorCount)
    /\ length coloring = length graph
    /\ List.Forall (fun c => (-1 <= c < maxColors)%Z) coloring
    /\ colorCount = Math_max (map Z2F coloring) + 1.
Proof.
  intros Hp Hm _.
  assert (Hr : (0 <= maxColors < 2 ^ 32)%Z) by (unfold small_count in Hm; lia).
  destruct (solveGraphColoring_returns projections problem graph maxColors
              Hp Hr) as (coloring & colorCount & E).
  exists coloring, colorCount. split; [exact E|].
  exact (solveGraphColoring_entries projections problem graph maxColors
           coloring colorCount Hp E).
Qed.

Lemma coloring_entries_bounded_witness :
  exists coloring colorCount,
    _solveGraphColoring [{| coordinates := []; value := 0 |}] coloring20
    = Ok (ColoringSolution coloring colorCount)
    /\ length coloring = length sample_graph
    /\ List.Forall (fun c => (-1 <= c < 3)%Z) coloring
    /\ colorCount = Math_max (map Z2F coloring) + 1.
Proof.
  apply (coloring_entries_bounded
           [{| coordinates := []; value := 0 |}] coloring20 sample_graph 3);
    [reflexivity|unfold small_count; lia|discriminate].
Defined.

Lemma verifyGraphColoring_adjacent (coloring : list Z) (graph : list (list Z))
    (maxColors : Z) :
  _verifyGraphColoring coloring graph maxColors = true ->
  forall i j, (i < j < length graph)%nat -> adjacent graph i j = true ->
              coloring !! i <> coloring !! j.
Proof.
  unfold _verifyGraphColoring. intros H i j Hij Ha.
  apply andb_prop in H. destruct H as [H _].
  rewrite forallb_forall in H. specialize (H i).
  rewrite forallb_forall in H.
  assert (Hi : In i (seq 0 (length graph))) by (apply in_seq; lia).
  assert (Hj : In j (seq (i + 1) (length graph - (i + 1)))) by (apply in_seq; lia).
  specialize (H Hi j Hj). rewrite Ha in H. simpl in H.
  intros E. rewrite bool_decide_eq_true_2 in H by exact E. discriminate.
Qed.

(** X4.  A colouring that [_verifyGraphColoring] accepts gives different
    colours to every two nodes [i < j] with [graph[i][j] === 1], and all
    its colours are below [maxColors]. *)
Theorem valid_coloring_is_proper (coloring : list Z) (graph : list (list Z))
    (maxColors : Z) :
  _verifyGraphColoring coloring graph maxColors = true ->
  (forall i j, (i < j < length graph)%nat -> adjacent graph i j = true ->
               coloring !! i <> coloring !! j)
  /\ List.Forall (fun c => (Z2F c <? Z2F maxColors) = true) coloring.
Proof.
  intros H. split; [now apply (verifyGraphColoring_adjacent _ _ maxColors)|].
  unfold _verifyGraphColoring in H. apply andb_prop in H. destruct H as [_ H].
  apply NumberFacts.Math_max_below in H.
  rewrite List.Forall_forall in *. intros c Hc. apply H. now apply in_map.
Qed.

Lemma valid_coloring_is_proper_witness :
  (forall i j, (i < j < length sample_graph)%nat ->
               adjacent sample_graph i j = true ->
               [0; 1; 0]%Z !! i <> [0; 1; 0]%Z !! j)
  /\ List.Forall (fun c => (Z2F c <? Z2F 3) = true) [0; 1; 0]%Z.
Proof.
  apply (valid_coloring_is_proper [0; 1; 0]%Z sample_graph 3). reflexivity.
Defined.

(** ** Subset sums *)

Lemma subset_total_filter (numbers : list float) (subset : list bool) :
  subset_total numbers subset
  = (fold_left (fun s i => s + get numbers i)
       (filter (fun i => selected subset i = true) (seq 0 (length numbers))) 0,
     filter (fun i => selected subset i = true) (seq 0 (length numbers))).
Proof.
  unfold subset_total.
  assert (G : forall l s acc,
             fold_left
               (fun '(sum, selectedIndices) i =>
                  if selected subset i
                  then (sum + get numbers i, selectedIndices ++ [i])
                  else (sum, selectedIndices))
               l (s, acc)
             = (fold_left (fun s i => s + get numbers i)
                  (filter (fun i => selected subset i = true) l) s,
                acc ++ filter (fun i => selected subset i = true) l)).
  { induction l as [|i l IH]; intros s acc; simpl.
    - now rewrite app_nil_r.
    - rewrite filter_cons.
      destruct (selected subset i) eqn:E.
      + rewrite decide_True by reflexivity. rewrite IH. simpl.
        now rewrite <- app_assoc.
      + rewrite decide_False by discriminate. now rewrite IH. }
  apply (G _ 0 []).
Qed.

Lemma filter_seq_sorted (P : nat -> Prop) `{forall i, Decision (P i)}
    (from n : nat) :
  StronglySorted lt (filter P (seq from n))
  /\ List.Forall (fun i => (from <= i < from + n)%nat) (filter P (seq from n)).
Proof.
  revert from. induction n as [|n IH]; intros from; simpl.
  - split; constructor.
  - destruct (IH (S from)) as [Hs Hf]. rewrite filter_cons.
    assert (Hf' : List.Forall (fun i => (from <= i < from + S n)%nat)
                    (filter P (seq (S from) n))).
    { eapply List.Forall_impl; [|exact Hf]. simpl. intros; lia. }
    destruct (decide (P from)); [|auto].
    split.
    + constructor; [exact Hs|].
      eapply List.Forall_impl; [|exact Hf]. simpl. intros; lia.
    + constructor; [lia|exact Hf'].
Qed.

Lemma subset_total_consistent (numbers : list float) (target : float)
    (subset : list bool) :
  consistent_subset numbers target
    (let '(sum, selectedIndices) := subset_total numbers subset in
     SubsetSolution selectedIndices sum target (abs (sum - target))).
Proof.
  rewrite subset_total_filter.
  destruct (filter_seq_sorted (fun i => selected subset i = true) 0
              (length numbers)) as [Hs Hf].
  eexists. eexists. split; [reflexivity|].
  split; [exact Hs|]. split; [|reflexivity].
  eapply List.Forall_impl; [|exact Hf]. simpl. intros; lia.
Qed.

Lemma solveSubsetSum_consistent (projections : list Projection)
    (problem : Problem) (numbers : list float) (target : float) :
  payload problem = SubsetSelection numbers target ->
  exists sol, _solveSubsetSum projections problem = Ok sol
              /\ consistent_subset numbers target sol.
Proof.
  intros Hp. unfold _solveSubsetSum. rewrite Hp.
  match goal with
  | |- context [subset_total numbers ?s] =>
      pose proof (subset_total_consistent numbers target s) as H1;
      destruct (subset_total numbers s) as [sum idx]
  end.
  destruct (_ <? _).
  - eexists. split; [reflexivity|]. unfold _refineSubsetSum.
    destruct (refine_loop numbers target _) as [best bestDiff].
    apply subset_total_consistent.
  - eexists. split; [reflexivity|]. exact H1.
Qed.

(** X5.  [_solveSubsetSum] always returns; the indices it reports are
    increasing and are indices of [numbers], [sum] is the sum of the numbers
    at those indices, added in that order, and [difference] is
    [|sum - target|], also when the answer went through
    [_refineSubsetSum]. *)
Theorem subset_answer_is_consistent (projections : list Projection)
    (problem : Problem) (numbers : list float) (target : float) :
  payload problem = SubsetSelection numbers target ->
  exists selectedIndices sum,
    _solveSubsetSum projections problem
    = Ok (SubsetSolution selectedIndices sum target (abs (sum - target)))
    /\ StronglySorted lt selectedIndices
    /\ List.Forall (fun i => (i < length numbers)%nat) selectedIndices
    /\ sum = fold_left (fun s i => s + get numbers i) selectedIndices 0.
Proof.
  intros Hp.
  destruct (solveSubsetSum_consistent projections problem numbers target Hp)
    as (sol & E & idx & sum & -> & H).
  exists idx, sum. split; [exact E|exact H].
Qed.

Lemma subset_answer_is_consistent_witness :
  exists selectedIndices sum,
    _solveSubsetSum [{| coordinates := [0x1p-2; 0x1p-1]; value := 1 |}]
      (problem_of "subset-sum" 20 None (SubsetSelection [1; 2; 3; 4; 5] 9))
    = Ok (SubsetSolution selectedIndices sum 9 (abs (sum - 9)))
    /\ StronglySorted lt selectedIndices
    /\ List.Forall (fun i => (i < length [1; 2; 3; 4; 5])%nat) selectedIndices
    /\ sum = fold_left (fun s i => s + get [1; 2; 3; 4; 5] i) selectedIndices 0.
Proof.
  apply (subset_answer_is_consistent
           [{| coordinates := [0x1p-2; 0x1p-1]; value := 1 |}]
           (problem_of "subset-sum" 20 None (SubsetSelection [1; 2; 3; 4; 5] 9))
           [1; 2; 3; 4; 5] 9).
  reflexivity.
Defined.

(** X6.  A subset-sum problem whose target is zero or negative is never
    reported valid: the check [|sum - target| < 0.001 * target] cannot hold,
    also for the empty selection of target [0]. *)
Theorem nonpositive_target_is_never_valid {M : MathImpl}
    (projections : list Projection) (problem : Problem)
    (numbers : list float) (target : float) :
  type problem = "subset-sum"%string ->
  payload problem = SubsetSelection numbers target ->
  (target <=? 0) = true ->
  exists sol,
    _solveSubsetSum projections problem = Ok sol
    /\ _verifySolution sol problem = Ok false.
Proof.
  intros Ht Hp Hle.
  destruct (solveSubsetSum_consistent projections problem numbers target Hp)
    as (sol & E & idx & sum & -> & _).
  eexists. split; [exact E|].
  unfold _verifySolution. rewrite Ht, Hp. simpl.
  now rewrite NumberFacts.abs_not_below.
Qed.

Lemma nonpositive_target_is_never_valid_witness :
  exists sol,
    _solveSubsetSum []
      (problem_of "subset-sum" 5 None (SubsetSelection [1; 2; 3; 4; 5] 0))
    = Ok sol
    /\ _verifySolution sol
         (problem_of "subset-sum" 5 None (SubsetSelection [1; 2; 3; 4; 5] 0))
       = Ok false.
Proof.
  apply (nonpositive_target_is_never_valid []
           (problem_of "subset-sum" 5 None (SubsetSelection [1; 2; 3; 4; 5] 0))
           [1; 2; 3; 4; 5] 0); reflexivity.
Defined.

(** ** Correlations and patterns *)

(** X7.  [_calculateCorrelation] does not depend on the order of its two
    series: the results are the same number, bit for bit. *)
Theorem correlation_is_symmetric {M : MathImpl} (series1 series2 : list float) :
  _calculateCorrelation series1 series2 = _calculateCorrelation series2 series1.
Proof.
  unfold _calculateCorrelation.
  destruct (Nat.eqb_spec (length series1) (length series2)) as [E|E].
  - rewrite <- E, Nat.eqb_refl. simpl.
    destruct (length series1 =? 0)%nat; [reflexivity|].
    assert (G : forall l t,
               fold_left
                 (fun '(sum1, sum2, sum1Sq, sum2Sq, pSum) i =>
                    (sum1 + get series2 i, sum2 + get series1 i,
                     sum1Sq + Math_pow (get series2 i) 2,
                     sum2Sq + Math_pow (get series1 i) 2,
                     pSum + get series2 i * get series1 i))
                 l (swap5 t)
               = swap5
                   (fold_left
                      (fun '(sum1, sum2, sum1Sq, sum2Sq, pSum) i =>
                         (sum1 + get series1 i, sum2 + get series2 i,
                          sum1Sq + Math_pow (get series1 i) 2,
                          sum2Sq + Math_pow (get series2 i) 2,
                          pSum + get series1 i * get series2 i))
                      l t)).
    { induction l as [|i l IH]; intros [[[[a b] c] d] p]; simpl; [reflexivity|].
      rewrite <- IH. simpl.
      now rewrite (NumberFacts.mul_comm (get series2 i)). }
    specialize (G (seq 0 (length series1)) (0, 0, 0, 0, 0)). simpl in G.
    rewrite G. clear G.
    match goal with
    | |- context [swap5 ?t] => destruct t as [[[[a b] c] d] p]
    end.
    simpl. rewrite (NumberFacts.mul_comm b a).
    now rewrite (NumberFacts.mul_comm (d - _) (c - _)).
  - assert (E' : (length series2 =? length series1)%nat = false)
      by (apply Nat.eqb_neq; congruence).
    now rewrite E'.
Qed.

Lemma correlations_in_range {M : MathImpl} (this : NPSolver) (c : Correlation) :
  In c (_calculateDimensionalCorrelations this) ->
  (fst (corr_dimensions c) < snd (corr_dimensions c) < Z.to_nat DIMENSIONS)%nat.
Proof.
  unfold _calculateDimensionalCorrelations. intros H.
  apply in_flat_map in H. destruct H as (i & Hi & H).
  apply in_flat_map in H. destruct H as (j & Hj & H).
  apply in_seq in Hi. apply in_seq in Hj.
  destruct (_ && _); simpl in H; [|contradiction].
  destruct H as [<-|[]]. simpl in *. lia.
Qed.

Lemma flat_map_nothing {A B} (f : A -> list B) (l : list A) :
  (forall a, In a l -> f a = []) -> flat_map f l = [].
Proof.
  induction l as [|a l IH]; intros H; simpl; [reflexivity|].
  rewrite H by now left. apply IH. intros b Hb. apply H. now right.
Qed.

Lemma short_histories_no_correlation {M : MathImpl} (this : NPSolver) :
  List.Forall (fun stack => (length stack <= 10)%nat) (tickStack this) ->
  _calculateDimensionalCorrelations this = [].
Proof.
  intros H. unfold _calculateDimensionalCorrelations.
  assert (Hs : forall i, (10 <? length (nth i (tickStack this) []))%nat = false).
  { intros i. apply Nat.ltb_ge.
    destruct (nth_in_or_default i (tickStack this) []) as [Hin| ->];
      [|simpl; lia].
    rewrite List.Forall_forall in H. now apply H. }
  apply flat_map_nothing. intros i _.
  apply flat_map_nothing. intros j _.
  now rewrite Hs.
Qed.

Lemma project_depends_on_pairs {M : MathImpl} (vector : list float)
    (p q : Patterns) :
  primaryDimensions p = primaryDimensions q ->
  correlationStrengths p = correlationStrengths q ->
  _projectVectorOntoPatternSpace vector p
  = _projectVectorOntoPatternSpace vector q.
Proof.
  destruct p, q. simpl. intros -> ->. reflexivity.
Qed.

Lemma project_coordinates {M : MathImpl} (vector : list float)
    (patterns : Patterns) :
  length (coordinates (_projectVectorOntoPatternSpace vector patterns))
  = length (primaryDimensions patterns).
Proof.
  unfold _projectVectorOntoPatternSpace.
  assert (G : forall l p0,
             length (coordinates
                       (fold_left
                          (fun projection i =>
                             let '(dim1, dim2) :=
                               nth i (primaryDimensions patterns) (0, 0)%nat in
                             let strength :=
                               abs (get (correlationStrengths patterns) i) in
                             let coord :=
                               (get vector dim1 + get vector dim2) / 2 * strength in
                             {| coordinates := coordinates projection ++ [coord];
                                value := value projection
                                         + coord * Math_pow PHI (N2F i) |})
                          l p0))
             = (length (coordinates p0) + length l)%nat).
  { induction l as [|i l IH]; intros p0; simpl; [lia|].
    rewrite IH. destruct (nth i _ _). simpl. rewrite length_app. simpl. lia. }
  rewrite G. simpl. now rewrite length_seq.
Qed.

(** The pattern that [analyze] builds: the three strongest pairs, and one
    projection per vector onto them. *)
Lemma analyze_projections {M : MathImpl} (space : Space) (this : NPSolver) :
  let top :=
    firstn 3
      (sort (fun a b => abs (correlation b) - abs (correlation a))
         (_calculateDimensionalCorrelations this)) in
  let base := {| primaryDimensions := map corr_dimensions top;
                 correlationStrengths := map correlation top;
                 vectorProjections := [] |} in
  analyze space this
  = {| primaryDimensions := map corr_dimensions top;
       correlationStrengths := map correlation top;
       vectorProjections :=
         map (fun vector => _projectVectorOntoPatternSpace vector base)
           (vectors space) |}.
Proof.
  intros top base. unfold analyze. fold top. fold base.
  assert (G : forall vs acc,
             fold_left
               (fun patterns vector =>
                  let projection :=
                    _projectVectorOntoPatternSpace vector patterns in
                  {| primaryDimensions := primaryDimensions patterns;
                     correlationStrengths := correlationStrengths patterns;
                     vectorProjections :=
                       vectorProjections patterns ++ [projection] |})
               vs {| primaryDimensions := map corr_dimensions top;
                     correlationStrengths := map correlation top;
                     vectorProjections := acc |}
             = {| primaryDimensions := map corr_dimensions top;
                  correlationStrengths := map correlation top;
                  vectorProjections :=
                    acc ++ map (fun vector =>
                                  _projectVectorOntoPatternSpace vector base)
                             vs |}).
  { induction vs as [|v vs IH]; intros acc; simpl.
    - now rewrite app_nil_r.
    - rewrite IH, <- app_assoc. simpl.
      now rewrite (project_depends_on_pairs v _ base). }
  apply (G (vectors space) []).
Qed.

(** X8.  The pattern that [_extractPatterns] computes: at most three
    dimension pairs, one strength per pair, every pair [i < j] among the 11
    dimensions, one projection per vector, and as many coordinates in a
    projection as there are pairs.  While no history is longer than 10
    values there is no pair at all, and every projection is empty with
    value 0. *)
Theorem pattern_shape {M : MathImpl} (space : Space) (this : NPSolver) :
  let patterns := analyze space this in
  (length (primaryDimensions patterns) <= 3)%nat
  /\ length (correlationStrengths patterns) = length (primaryDimensions patterns)
  /\ List.Forall (fun d => (fst d < snd d < Z.to_nat DIMENSIONS)%nat)
       (primaryDimensions patterns)
  /\ length (vectorProjections patterns) = length (vectors space)
  /\ List.Forall
       (fun projection =>
          length (coordinates projection) = length (primaryDimensions patterns))
       (vectorProjections patterns)
  /\ (List.Forall (fun stack => (length stack <= 10)%nat) (tickStack this) ->
      primaryDimensions patterns = []
      /\ List.Forall
           (fun projection => projection = {| coordinates := []; value := 0 |})
           (vectorProjections patterns)).
Proof.
  intros patterns. unfold patterns. rewrite analyze_projections. simpl.
  set (sorted := sort _ _).
  repeat split.
  - rewrite length_map, length_firstn. lia.
  - now rewrite !length_map.
  - apply List.Forall_forall. intros d Hd.
    apply in_map_iff in Hd. destruct Hd as (c & <- & Hc).
    assert (Hc' : In c sorted).
    { rewrite <- (firstn_skipn 3 sorted). apply in_or_app. now left. }
    apply (Permutation_in _ (sort_perm _ _)) in Hc'.
    now apply correlations_in_range in Hc'.
  - now rewrite length_map.
  - apply List.Forall_forall. intros p Hp.
    apply in_map_iff in Hp. destruct Hp as (v & <- & _).
    now rewrite project_coordinates.
  - unfold sorted. now rewrite short_histories_no_correlation.
  - apply List.Forall_forall. intros p Hp.
    apply in_map_iff in Hp. destruct Hp as (v & <- & _).
    unfold sorted. now rewrite short_histories_no_correlation.
Qed.

Lemma pattern_shape_witness :
  primaryDimensions (analyze sample_space new_NPSolver) = []
  /\ List.Forall
       (fun projection => projection = {| coordinates := []; value := 0 |})
       (vectorProjections (analyze sample_space new_NPSolver)).
Proof.
  apply (pattern_shape sample_space new_NPSolver).
  repeat constructor.
Defined.

(** ** Initialisation and drift *)

Lemma generateSolutionVector_returns {M : MathImpl} (problem : Problem)
    (i : nat) :
  (0 <= dimensions_or_default problem)%Z ->
  exists v, _generateSolutionVector problem i = Ok v.
Proof.
  intros Hd. unfold _generateSolutionVector, new_Float64Array.
  destruct (Z.ltb_spec (dimensions_or_default problem) 0); [lia|].
  simpl. eauto.
Qed.

Lemma initial_vectors_returned {M : MathImpl} (problem : Problem) (n : nat) :
  (0 <= dimensions_or_default problem)%Z ->
  exists vs,
    for_each (fun i vs => obind (_generateSolutionVector problem i)
                            (fun vector => Ok (vs ++ [vector]))) 0 n []
    = Ok vs.
Proof.
  intros Hd. apply for_each_total. intros i x.
  destruct (generateSolutionVector_returns problem i Hd) as [v ->].
  simpl. eauto.
Qed.

Lemma initializeSolutionSpace_returns {M : MathImpl} (problem : Problem)
    (n : nat) :
  (0 <= dimensions_or_default problem)%Z ->
  loop_bound (Math_ceil (Math_log2 (Z2F (size problem)) * PHI)) = Rounds n ->
  exists space, _initializeSolutionSpace problem = Ok space.
Proof.
  intros Hd Hb. unfold _initializeSolutionSpace. rewrite Hb.
  destruct (initial_vectors_returned problem n Hd) as [vs E].
  rewrite E. simpl. eauto.
Qed.

(** X9.  With a small dimension count (from 0 to [small_count], so that the
    typed arrays are allocated) and a finite number [n] of rounds
    [ceil(log2(size) * PHI)], [_initializeSolutionSpace] returns a space
    of [n] vectors, each with as many entries as the dimension count in
    force, that records the problem's size and that dimension count. *)
Theorem initial_vectors_shape {M : MathImpl} (problem : Problem) (n : nat) :
  (0 <= dimensions_or_default problem <= small_count)%Z ->
  loop_bound (Math_ceil (Math_log2 (Z2F (size problem)) * PHI)) = Rounds n ->
  exists space,
    _initializeSolutionSpace problem = Ok space
    /\ sp_dimensions space = dimensions_or_default problem
    /\ sp_size space = size problem
    /\ length (vectors space) = n
    /\ List.Forall
         (fun vector => length vector = Z.to_nat (dimensions_or_default problem))
         (vectors space).
Proof.
  intros [Hd _] Hb. unfold _initializeSolutionSpace. rewrite Hb.
  destruct (initial_vectors_returned problem n Hd) as [vs E].
  rewrite E. simpl. eexists. split; [reflexivity|]. simpl.
  assert (I : length vs = (0 + n)%nat
              /\ List.Forall
                   (fun v => length v = Z.to_nat (dimensions_or_default problem))
                   vs).
  { eapply (for_each_indexed
              (fun i (vs : list (list float)) =>
                 length vs = i
                 /\ List.Forall
                      (fun v => length v
                                = Z.to_nat (dimensions_or_default problem)) vs));
      [| |exact E].
    - intros i s s' [Hl Hf].
      destruct (_generateSolutionVector problem i) as [v| |] eqn:Ev;
        simpl; try discriminate.
      intros [= <-]. rewrite length_app. simpl. split; [lia|].
      apply List.Forall_app. split; [exact Hf|].
      constructor; [|constructor]. now apply generated_length in Ev.
    - split; [reflexivity|constructor]. }
  destruct I as [Hl Hf]. repeat split; auto.
Qed.

Lemma initial_vectors_shape_witness :
  exists space,
    _initializeSolutionSpace coloring20 = Ok space
    /\ sp_dimensions space = dimensions_or_default coloring20
    /\ sp_size space = size coloring20
    /\ length (vectors space) = 7%nat
    /\ List.Forall
         (fun vector => length vector = Z.to_nat (dimensions_or_default coloring20))
         (vectors space).
Proof.
  apply (initial_vectors_shape coloring20 7).
  - split; discriminate.
  - reflexivity.
Defined.

Lemma drift_vector_entries {M : MathImpl} (problem : Problem)
    (driftState : float) (i : nat) (vector : list float) :
  length (drift_vector problem driftState i vector) = length vector
  /\ forall j, (j < length vector)%nat ->
               drift_vector problem driftState i vector !! j
               = Some (drifted_entry problem driftState i vector j).
Proof.
  unfold drift_vector.
  pose proof (fold_left_indexed
                (fun j (d : list float) =>
                   length d = length vector
                   /\ forall k, (k < j)%nat ->
                                d !! k
                                = Some (drifted_entry problem driftState i vector k))
                (fun driftedVector j =>
                   let driftFactor := _calculateDriftFactor problem i j in
                   let driftedVector :=
                     <[j := get vector j
                            + (get vector j * driftFactor * driftState)]>
                       driftedVector in
                   <[j := Math_max [0; Math_min [1; get driftedVector j]]]>
                     driftedVector)
                (length vector) 0 (repeat 0 (length vector))) as H.
  simpl in H. destruct H as [Hl Hk].
  - intros j d Hj [Hl Hk]. rewrite !length_insert. split; [exact Hl|].
    intros k Hkj. destruct (Nat.eq_dec k j) as [->|Hne].
    + rewrite list_lookup_insert_eq by (rewrite length_insert; lia).
      unfold drifted_entry, get.
      rewrite (nth_lookup_Some _ j nan _
                 (list_lookup_insert_eq d j _ ltac:(lia))).
      reflexivity.
    + rewrite !list_lookup_insert_ne by congruence. apply Hk. lia.
  - split; [apply repeat_length|]. intros k Hk. lia.
  - split; [exact Hl|exact Hk].
Qed.

Lemma drifted_entry_clamped {M : MathImpl} (problem : Problem)
    (driftState : float) (i : nat) (vector : list float) (j : nat) :
  clamped (drifted_entry problem driftState i vector j).
Proof. apply NumberFacts.clamp_range. Qed.

Lemma drift_vector_clamped {M : MathImpl} (problem : Problem)
    (driftState : float) (i : nat) (vector : list float) :
  List.Forall clamped (drift_vector problem driftState i vector).
Proof.
  destruct (drift_vector_entries problem driftState i vector) as [Hl Hk].
  apply List.Forall_forall. intros v Hv.
  apply list_elem_of_In, list_elem_of_lookup in Hv. destruct Hv as [j Hj].
  assert (Hlt : (j < length vector)%nat)
    by (apply lookup_lt_Some in Hj; lia).
  rewrite (Hk j Hlt) in Hj. injection Hj as <-.
  apply drifted_entry_clamped.
Qed.

(** The drift step, as a whole: the vectors it returns and the histories it
    leaves. *)
Lemma applyQuantumDrift_result {M : MathImpl} (space : Space)
    (problem : Problem) (this : NPSolver) :
  let cycleCount' := (cycleCount this + 1)%Z in
  let driftState' := Math_sin (Z2F cycleCount' * PHI) * f0_1 in
  let drifted := imap (drift_vector problem driftState') (vectors space) in
  _applyQuantumDrift space problem this
  = ({| sp_dimensions := sp_dimensions space;
        sp_size := sp_size space;
        sp_constraints := sp_constraints space;
        vectors := drifted |},
     {| tickStack :=
          fold_left (fun ts v => _pushToTickStack v ts) drifted (tickStack this);
        patternCache := patternCache this;
        driftState := driftState';
        cycleCount := cycleCount' |}).
Proof.
  intros cc ds drifted. unfold _applyQuantumDrift. fold cc. fold ds.
  set (orig := vectors space).
  pose proof (fold_left_indexed
                (fun i (s : list (list float) * list (list float)) =>
                   length (fst s) = length orig
                   /\ (forall k, (k < i)%nat ->
                                 fst s !! k
                                 = drift_vector problem ds k <$> orig !! k)
                   /\ (forall k, (i <= k)%nat -> fst s !! k = orig !! k)
                   /\ snd s
                      = fold_left (fun ts v => _pushToTickStack v ts)
                          (firstn i (imap (drift_vector problem ds) orig))
                          (tickStack this))
                (fun '(vs, ts) i =>
                   let vector := nth i vs [] in
                   let driftedVector := drift_vector problem ds i vector in
                   (<[i := driftedVector]> vs, _pushToTickStack driftedVector ts))
                (length orig) 0 (orig, tickStack this)) as H.
  simpl in H. destruct H as (Hl & Hlt & _ & Hts).
  - intros i [vs ts] Hi (Hl & Hlt & Hge & Hts). simpl in *.
    destruct (lookup_lt_is_Some_2 orig i ltac:(lia)) as [v Hv].
    assert (Hn : nth i vs [] = v).
    { apply nth_lookup_Some. rewrite Hge by lia. exact Hv. }
    rewrite Hn. rewrite length_insert. split; [exact Hl|]. split; [|split].
    + intros k Hk. destruct (Nat.eq_dec k i) as [->|Hne].
      * rewrite list_lookup_insert_eq by lia. now rewrite Hv.
      * rewrite list_lookup_insert_ne by congruence. apply Hlt. lia.
    + intros k Hk. rewrite list_lookup_insert_ne by lia. apply Hge. lia.
    + rewrite (take_S_r _ i (drift_vector problem ds i v)).
      * rewrite fold_left_app. simpl. now rewrite Hts.
      * rewrite list_lookup_imap, Hv. reflexivity.
  - repeat split; auto. intros k Hk. lia.
  - destruct (fold_left _ (seq 0 (length orig)) (orig, tickStack this))
      as [vs ts]. simpl in *.
    assert (Ev : vs = drifted).
    { apply list_eq. intros k. unfold drifted. rewrite list_lookup_imap.
      destruct (Nat.lt_ge_cases k (length orig)) as [Hk|Hk].
      - now apply Hlt.
      - rewrite (lookup_ge_None_2 vs) by lia.
        now rewrite (lookup_ge_None_2 orig) by lia. }
    subst vs. f_equal. f_equal. rewrite Hts.
    rewrite firstn_all2; [reflexivity|]. unfold drifted.
    rewrite length_imap. lia.
Qed.

Lemma applyQuantumDrift_counters {M : MathImpl} (space : Space)
    (problem : Problem) (this : NPSolver) :
  let this' := snd (_applyQuantumDrift space problem this) in
  cycleCount this' = (cycleCount this + 1)%Z
  /\ driftState this' = Math_sin (Z2F (cycleCount this + 1) * PHI) * f0_1
  /\ patternCache this' = patternCache this.
Proof. rewrite applyQuantumDrift_result. simpl. auto. Qed.

(** X10.  [_applyQuantumDrift] keeps the number of vectors and the length of
    each, and every drifted entry is a number of [0, 1] or NaN; the
    histories receive the drifted vectors in order, the cycle count grows by
    one, the drift state is [sin(cycleCount * PHI) * 0.1] for the new count,
    and the pattern cache is not touched. *)
Theorem drift_keeps_shape_and_range {M : MathImpl} (space : Space)
    (problem : Problem) (this : NPSolver) :
  let space' := fst (_applyQuantumDrift space problem this) in
  let this' := snd (_applyQuantumDrift space problem this) in
  Forall2
    (fun vector vector' =>
       length vector' = length vector
       /\ List.Forall
            (fun v => is_nan v = true \/ ((0 <=? v) = true /\ (v <=? 1) = true))
            vector')
    (vectors space) (vectors space')
  /\ tickStack this'
     = fold_left (fun ts v => _pushToTickStack v ts) (vectors space')
         (tickStack this)
  /\ cycleCount this' = (cycleCount this + 1)%Z
  /\ driftState this' = Math_sin (Z2F (cycleCount this + 1) * PHI) * f0_1
  /\ patternCache this' = patternCache this.
Proof.
  intros space' this'. unfold space', this'.
  rewrite applyQuantumDrift_result. simpl. repeat split.
  apply Forall2_same_length_lookup. split; [now rewrite length_imap|].
  intros k v v' Hv Hv'. rewrite list_lookup_imap, Hv in Hv'.
  injection Hv' as <-.
  split; [apply drift_vector_entries|apply drift_vector_clamped].
Qed.

(** ** Calls *)

Lemma extractPatterns_effects {M : MathImpl} (space : Space)
    (problem : Problem) (this : NPSolver) :
  let patterns := fst (_extractPatterns space problem this) in
  let this' := snd (_extractPatterns space problem this) in
  tickStack this' = tickStack this
  /\ driftState this' = driftState this
  /\ cycleCount this' = cycleCount this
  /\ patternCache this' !! _generateProblemKey problem = Some patterns
  /\ forall k, k <> _generateProblemKey problem ->
               patternCache this' !! k = patternCache this !! k.
Proof.
  unfold _extractPatterns, cached_pattern.
  destruct (patternCache this !! _generateProblemKey problem) as [c|] eqn:E.
  - destruct (_isPatternValid c problem); simpl.
    + repeat split; auto.
    + rewrite lookup_insert_eq. repeat split; auto.
      intros k Hk. now rewrite lookup_insert_ne.
  - simpl. rewrite lookup_insert_eq. repeat split; auto.
    intros k Hk. now rewrite lookup_insert_ne.
Qed.

(** A call that got past initialisation, in its three steps. *)
Lemma solve_steps {M : MathImpl} (problem : Problem) (t0 t1 : float)
    (this : NPSolver) (space : Space) :
  _initializeSolutionSpace problem = Ok space ->
  let drifted := _applyQuantumDrift space problem this in
  let extracted := _extractPatterns (fst drifted) problem (snd drifted) in
  snd (solve problem t0 t1 this) = snd extracted
  /\ verdict (fst (solve problem t0 t1 this))
     = obind (_collapseSolution (fst extracted) problem)
         (fun sol => obind (_verifySolution sol problem)
                       (fun valid => Ok (sol, valid)))
  /\ forall result,
       fst (solve problem t0 t1 this) = Ok result ->
       problemSize result = size problem
       /\ result_driftState result = driftState (snd extracted).
Proof.
  intros Hi. unfold solve. rewrite Hi. simpl.
  destruct (_applyQuantumDrift space problem this) as [ds this1]. simpl.
  destruct (_extractPatterns ds problem this1) as [pat this2]. simpl.
  split; [reflexivity|].
  destruct (_collapseSolution pat problem) as [sol| |]; simpl;
    try (split; [reflexivity|discriminate]).
  destruct (_verifySolution sol problem) as [valid| |]; simpl;
    try (split; [reflexivity|discriminate]).
  split; [reflexivity|]. now intros result [= <-].
Qed.

(** X11.  What a call of [solve] does to the engine.  If the solution space
    cannot be built, the call does not return a result and the engine is
    as before.  Otherwise the cycle count has grown by one, the drift state
    is that of the new count, the cache has an entry at the problem's key
    and is unchanged at every other key (also when the call throws later),
    and a result that is returned carries the problem's size and the
    engine's drift state. *)
Theorem solve_effects_on_engine {M : MathImpl} (problem : Problem)
    (startTime endTime : float) (this : NPSolver) :
  let this' := snd (solve problem startTime endTime this) in
  match _initializeSolutionSpace problem with
  | Ok space =>
      cycleCount this' = (cycleCount this + 1)%Z
      /\ driftState this' = Math_sin (Z2F (cycleCount this + 1) * PHI) * f0_1
      /\ is_Some (patternCache this' !! _generateProblemKey problem)
      /\ (forall k, k <> _generateProblemKey problem ->
                    patternCache this' !! k = patternCache this !! k)
      /\ (forall result,
            fst (solve problem startTime endTime this) = Ok result ->
            problemSize result = size problem
            /\ result_driftState result = driftState this')
  | _ =>
      this' = this
      /\ forall result, fst (solve problem startTime endTime this) <> Ok result
  end.
Proof.
  intros this'. unfold this'.
  destruct (_initializeSolutionSpace problem) as [space| |] eqn:Hi.
  - destruct (solve_steps problem startTime endTime this space Hi)
      as (Hs & _ & Hr).
    rewrite Hs.
    destruct (extractPatterns_effects
                (fst (_applyQuantumDrift space problem this)) problem
                (snd (_applyQuantumDrift space problem this)))
      as (_ & Hd & Hc & Hk & Ho).
    pose proof (applyQuantumDrift_counters space problem this)
      as (Hcc & Hds & Hpc).
    rewrite Hc, Hd, Hcc, Hds, Hk. repeat split; eauto.
    + intros k Hne. rewrite (Ho k Hne). now rewrite Hpc.
    + now apply Hr.
    + rewrite (proj2 (Hr result H)), Hd. exact Hds.
  - unfold solve. rewrite Hi. simpl. split; [reflexivity|discriminate].
  - unfold solve. rewrite Hi. simpl. split; [reflexivity|discriminate].
Qed.

(** X12.  A problem of a kind other than the four supported ones makes
    [solve] throw, but only in [_combineSolutionFromProjections]: by then
    the engine has drifted, the histories have received the vectors and the
    cache has an entry for the problem. *)
Theorem unsupported_kind_throws_late {M : MathImpl} (problem : Problem)
    (startTime endTime : float) (this : NPSolver) (space : Space) :
  supported (type problem) = false ->
  _initializeSolutionSpace problem = Ok space ->
  let this' := snd (solve problem startTime endTime this) in
  fst (solve problem startTime endTime this)
  = Throw (UnsupportedType (type problem))
  /\ cycleCount this' = (cycleCount this + 1)%Z
  /\ tickStack this'
     = fold_left (fun ts v => _pushToTickStack v ts)
         (vectors (fst (_applyQuantumDrift space problem this)))
         (tickStack this)
  /\ is_Some (patternCache this' !! _generateProblemKey problem).
Proof.
  intros Hu Hi this'. unfold this'.
  destruct (solve_steps problem startTime endTime this space Hi)
    as (Hs & Hv & _).
  rewrite Hs.
  destruct (extractPatterns_effects
              (fst (_applyQuantumDrift space problem this)) problem
              (snd (_applyQuantumDrift space problem this)))
    as (Ht & _ & Hc & Hk & _).
  pose proof (applyQuantumDrift_counters space problem this) as (Hcc & _ & _).
  rewrite Hc, Hcc, Ht, Hk. repeat split; eauto.
  - unfold supported in Hu.
    apply orb_false_elim in Hu. destruct Hu as [Hu H4].
    apply orb_false_elim in Hu. destruct Hu as [Hu H3].
    apply orb_false_elim in Hu. destruct Hu as [H1 H2].
    unfold _collapseSolution, _combineSolutionFromProjections in Hv.
    rewrite H1, H2, H3, H4 in Hv. simpl in Hv.
    destruct (fst (solve problem startTime endTime this)); simpl in Hv;
      congruence.
  - now rewrite applyQuantumDrift_result.
Qed.

Lemma unsupported_kind_throws_late_witness :
  let problem := problem_of "knapsack" 20 None (Tour []) in
  exists space,
    _initializeSolutionSpace problem = Ok space
    /\ fst (solve problem 0 5 new_NPSolver)
       = Throw (UnsupportedType (type problem))
    /\ cycleCount (snd (solve problem 0 5 new_NPSolver)) = (0 + 1)%Z
    /\ tickStack (snd (solve problem 0 5 new_NPSolver))
       = fold_left (fun ts v => _pushToTickStack v ts)
           (vectors (fst (_applyQuantumDrift space problem new_NPSolver)))
           (tickStack new_NPSolver)
    /\ is_Some (patternCache (snd (solve problem 0 5 new_NPSolver))
                  !! _generateProblemKey problem).
Proof.
  eexists. split; [vm_compute; reflexivity|].
  apply (unsupported_kind_throws_late
           (problem_of "knapsack" 20 None (Tour [])) 0 5 new_NPSolver).
  - reflexivity.
  - vm_compute. reflexivity.
Defined.

Lemma collapse_returns {M : MathImpl} (patterns : Patterns) (problem : Problem) :
  well_formed problem ->
  exists sol valid,
    _collapseSolution patterns problem = Ok sol
    /\ _verifySolution sol problem = Ok valid
    /\ (type problem = "tsp"%string -> valid = true).
Proof.
  unfold well_formed, _collapseSolution, _combineSolutionFromProjections,
    _verifySolution.
  generalize (topProjections patterns problem). intros projections.
  destruct (payload problem) as [cities|graph maxColors|clauses variables
                                 |numbers target] eqn:Hp.
  - intros Ht. rewrite Ht. simpl.
    destruct (solveTSP_permutation projections problem cities Hp)
      as (path & distance & E & Hv).
    apply verifyTSP_permutation in Hv.
    rewrite E. simpl.
    exists (TourSolution path distance), true. rewrite Hv. auto.
  - intros (Ht & Hm & _). rewrite Ht. simpl.
    assert (Hr : (0 <= maxColors < 2 ^ 32)%Z)
      by (unfold small_count in Hm; lia).
    destruct (solveGraphColoring_returns projections problem graph maxColors
                Hp Hr) as (coloring & colorCount & E).
    rewrite E. simpl.
    exists (ColoringSolution coloring colorCount). eexists.
    split; [reflexivity|]. split; [reflexivity|discriminate].
  - intros [Ht Hv]. rewrite Ht. simpl. unfold small_count in Hv.
    unfold _solveSAT, Array_fill. rewrite Hp.
    destruct (Z.leb_spec 0 variables); [|lia].
    destruct (Z.ltb_spec variables (2 ^ 32)); [|lia]. simpl.
    eexists. eexists. split; [reflexivity|]. split; [reflexivity|discriminate].
  - intros Ht. rewrite Ht. simpl.
    destruct (solveSubsetSum_consistent projections problem numbers target Hp)
      as (sol & E & idx & sum & -> & _).
    rewrite E. simpl. eexists. eexists.
    split; [reflexivity|]. split; [reflexivity|discriminate].
Qed.

(** X13.  For a problem that carries the payload of its kind, with small
    counts (colours, nodes, variables and dimensions up to [small_count])
    and a finite number of rounds, [solve] returns a result: nothing
    throws.  The result has the problem's size, the elapsed time
    [endTime - startTime] and the engine's drift state, and a tsp result is
    valid. *)
Theorem well_formed_call_returns {M : MathImpl} (problem : Problem)
    (startTime endTime : float) (this : NPSolver) (n : nat) :
  well_formed problem ->
  (0 <= dimensions_or_default problem <= small_count)%Z ->
  loop_bound (Math_ceil (Math_log2 (Z2F (size problem)) * PHI)) = Rounds n ->
  exists result this',
    solve problem startTime endTime this = (Ok result, this')
    /\ problemSize result = size problem
    /\ timeElapsed result = endTime - startTime
    /\ result_driftState result = driftState this'
    /\ (type problem = "tsp"%string -> isValid result = true).
Proof.
  intros Hw [Hd _] Hb.
  destruct (initializeSolutionSpace_returns problem n Hd Hb) as (space & Hi).
  unfold solve. rewrite Hi.
  destruct (_applyQuantumDrift space problem this) as [ds this1].
  destruct (_extractPatterns ds problem this1) as [pat this2].
  destruct (collapse_returns pat problem Hw) as (sol & valid & E1 & E2 & Ht).
  rewrite E1. simpl. rewrite E2. simpl.
  eexists. eexists. split; [reflexivity|]. simpl. auto.
Qed.

Lemma well_formed_call_returns_witness :
  exists result this',
    solve coloring20 0 5 new_NPSolver = (Ok result, this')
    /\ problemSize result = size coloring20
    /\ timeElapsed result = 5 - 0
    /\ result_driftState result = driftState this'
    /\ (type coloring20 = "tsp"%string -> isValid result = true).
Proof.
  apply (well_formed_call_returns coloring20 0 5 new_NPSolver 7).
  - split; [reflexivity|]. split; [unfold small_count; lia|discriminate].
  - split; discriminate.
  - reflexivity.
Defined.

(** ** Cached patterns that are found again *)

Lemma digits_of_uint (d : Decimal.uint) (n : N) :
  digits (NilEmpty.string_of_uint d) (Some (Z.of_N n))
  = Some (Z.of_N match n with
                 | N0 => Pos.of_uint d
                 | Npos p => Npos (Pos.of_uint_acc d p)
                 end).
Proof.
  revert n. induction d as [|d IH|d IH|d IH|d IH|d IH|d IH|d IH|d IH|d IH|d IH];
    intros n; [now destruct n|..];
    cbn [NilEmpty.string_of_uint digits Pos.of_uint Pos.of_uint_acc];
    match goal with
    | |- context [digit_of ?c] =>
        let v := eval vm_compute in (digit_of c) in
        change (digit_of c) with v; cbv iota
    end;
    cbn [default from_option id];
    match goal with
    | |- digits _ (Some ?a) = _ =>
        replace a with (Z.of_N (Z.to_N a)) by (rewrite Z2N.id; lia)
    end;
    rewrite IH; destruct n as [|p]; simpl; try reflexivity;
    do 3 f_equal; lia.
Qed.

Lemma digits_start (d : Decimal.uint) :
  d <> Decimal.Nil ->
  digits (NilEmpty.string_of_uint d) None
  = digits (NilEmpty.string_of_uint d) (Some 0%Z).
Proof. destruct d; [congruence|..]; reflexivity. Qed.

Lemma digits_of_positive (p : positive) :
  digits (NilEmpty.string_of_uint (Pos.to_uint p)) None = Some (Z.pos p).
Proof.
  rewrite digits_start by exact (DecimalPos.Unsigned.to_uint_nonnil p).
  change (Some 0%Z) with (Some (Z.of_N 0)).
  rewrite (digits_of_uint (Pos.to_uint p) 0).
  now rewrite DecimalPos.Unsigned.of_to.
Qed.

Lemma string_of_positive (p : positive) :
  NilZero.string_of_uint (Pos.to_uint p)
  = NilEmpty.string_of_uint (Pos.to_uint p).
Proof.
  pose proof (DecimalPos.Unsigned.to_uint_nonnil p) as H.
  now destruct (Pos.to_uint p).
Qed.

Lemma parseInt10_digits (d : Decimal.uint) :
  parseInt10 (NilEmpty.string_of_uint d)
  = digits (NilEmpty.string_of_uint d) None.
Proof. now destruct d. Qed.

Lemma parseInt10_toString (z : Z) : parseInt10 (toString z) = Some z.
Proof.
  unfold toString. destruct z as [|p|p]; [reflexivity|..];
    cbn [Z.to_int NilZero.string_of_int]; rewrite string_of_positive.
  - now rewrite parseInt10_digits, digits_of_positive.
  - unfold parseInt10. cbn [skip_spaces is_space].
    now rewrite digits_of_positive.
Qed.

Lemma string_app_nil_r (s : string) : (s ++ "")%string = s.
Proof.
  induction s as [|c s IH]; [reflexivity|].
  change (String c (s ++ "") = String c s). now rewrite IH.
Qed.

Lemma string_app_assoc (a b c : string) :
  ((a ++ b) ++ c)%string = (a ++ b ++ c)%string.
Proof.
  induction a as [|x a IH]; [reflexivity|].
  change (String x ((a ++ b) ++ c) = String x (a ++ b ++ c)). now rewrite IH.
Qed.

Lemma split_dash_aux_app (a r cur : string) :
  dash_free a = true ->
  split_dash_aux (a ++ String "-" r) cur
  = (cur ++ a)%string :: split_dash_aux r "".
Proof.
  revert cur. induction a as [|c a IH]; intros cur.
  - intros _. rewrite string_app_nil_r. reflexivity.
  - simpl. intros H. apply andb_prop in H. destruct H as [Hc Ha].
    apply negb_true_iff in Hc.
    change (split_dash_aux (String c (a ++ String "-" r)) cur
            = (cur ++ String c a)%string :: split_dash_aux r "").
    simpl. rewrite Hc, IH by exact Ha.
    now rewrite string_app_assoc.
Qed.

Lemma digits_dash_free (d : Decimal.uint) :
  dash_free (NilEmpty.string_of_uint d) = true.
Proof. induction d; simpl; auto. Qed.

Lemma toString_dash_free (z : Z) : (0 <= z)%Z -> dash_free (toString z) = true.
Proof.
  unfold toString. destruct z as [|p|p]; [reflexivity| |lia]. intros _.
  cbn [Z.to_int NilZero.string_of_int]. rewrite string_of_positive.
  apply digits_dash_free.
Qed.

Lemma key_parts (problem : Problem) :
  dash_free (type problem) = true -> (0 <= size problem)%Z ->
  split_dash (_generateProblemKey problem) !! 0%nat = Some (type problem)
  /\ split_dash (_generateProblemKey problem) !! 1%nat
     = Some (toString (size problem)).
Proof.
  intros Ht Hs. unfold split_dash, _generateProblemKey.
  change (type problem ++ "-" ++ toString (size problem) ++ "-"
            ++ toString (dimensions_or_default problem))%string
    with (type problem
            ++ String "-" (toString (size problem)
                 ++ String "-" (toString (dimensions_or_default problem))))%string.
  rewrite split_dash_aux_app by exact Ht.
  rewrite split_dash_aux_app by now apply toString_dash_free.
  split; reflexivity.
Qed.

Lemma relative_difference_of_itself (v : float) :
  positive_number v = true -> (abs (v - v) / v <? f0_2) = true.
Proof.
  unfold positive_number. intros H. apply andb_prop in H. destruct H as [H0 Hi].
  rewrite ltb_spec in H0, Hi. rewrite ltb_spec, div_spec, abs_spec, sub_spec.
  change (Prim2SF 0) with (S754_zero false) in H0.
  change (Prim2SF infinity) with (S754_infinity false) in Hi.
  destruct (Prim2SF v) as [[]|[]| |[] m e]; try discriminate.
  unfold SF64sub, SFsub. cbn [cond_Zopp]. rewrite Z.sub_diag. reflexivity.
Qed.

Lemma isPatternValid_dash_free {M : MathImpl} (pattern : Patterns)
    (problem : Problem) :
  dash_free (type problem) = true ->
  (0 <= size problem)%Z ->
  positive_number (Z2F (size problem)) = true ->
  _isPatternValid pattern problem = true.
Proof.
  intros Ht Hs Hp. unfold _isPatternValid.
  destruct (key_parts problem Ht Hs) as [-> ->].
  rewrite parseInt10_toString, String.eqb_refl.
  now rewrite relative_difference_of_itself.
Qed.

(** X14.  For a kind without a hyphen (as [tsp] and [sat]) and a size that
    is a positive safe integer (below 2^53, where the key holds all its
    digits), the key parses back to the problem's own kind and size, so a
    cache entry at the problem's key is always valid: [_extractPatterns]
    returns it and leaves the engine as it is. *)
Theorem hyphen_free_kind_reuses_patterns {M : MathImpl} (space : Space)
    (problem : Problem) (this : NPSolver) (cached : Patterns) :
  dash_free (type problem) = true ->
  (0 < size problem < 2 ^ 53)%Z ->
  positive_number (Z2F (size problem)) = true ->
  patternCache this !! _generateProblemKey problem = Some cached ->
  _extractPatterns space problem this = (cached, this).
Proof.
  intros Ht Hs Hp Hc. unfold _extractPatterns, cached_pattern.
  rewrite Hc, isPatternValid_dash_free; [reflexivity|exact Ht|lia|exact Hp].
Qed.

Lemma hyphen_free_kind_reuses_patterns_witness :
  let this := snd (solve (unit_clause 20) 0 5 new_NPSolver) in
  exists cached,
    patternCache this !! _generateProblemKey (unit_clause 20) = Some cached
    /\ _extractPatterns sample_space (unit_clause 20) this = (cached, this).
Proof.
  intros this.
  assert (Hc : is_Some (patternCache this !! _generateProblemKey (unit_clause 20))).
  { vm_compute. eauto. }
  destruct Hc as [cached Hc]. exists cached. split; [exact Hc|].
  apply (hyphen_free_kind_reuses_patterns sample_space (unit_clause 20) this
           cached).
  - reflexivity.
  - simpl. lia.
  - reflexivity.
  - exact Hc.
Defined.

(** ** Distances *)

Module DistanceFacts.
Import NumberOrder.

Lemma SFabs_binary_round s m e :
  SFabs (binary_round prec emax s m e) = SFabs (binary_round prec emax false m e).
Proof.
  unfold binary_round, binary_round_aux.
  destruct (shl_align _ _ _) as [mz ez].
  destruct (shr_fexp _ _ _ _ _) as [mrs' e'].
  destruct (shr_fexp _ _ _ _ _) as [mrs'' e''].
  destruct (shr_m mrs''); [| destruct (Z.leb _ _) |]; reflexivity.
Qed.

Lemma SFabs_binary_normalize m e :
  SFabs (binary_normalize prec emax (- m) e false)
  = SFabs (binary_normalize prec emax m e false).
Proof.
  destruct m as [|p|p]; simpl; [reflexivity| |].
  - apply SFabs_binary_round.
  - symmetry. apply SFabs_binary_round.
Qed.

Lemma SFabs_sub a b : SFabs (SF64sub a b) = SFabs (SF64sub b a).
Proof.
  unfold SF64sub, SFsub.
  destruct a as [sa|sa| |sa ma ea], b as [sb|sb| |sb mb eb];
    try reflexivity; try (destruct sa, sb; reflexivity).
  rewrite (Z.min_comm eb ea), <- SFabs_binary_normalize. f_equal. f_equal. lia.
Qed.

Lemma SFmul_square a : SF64mul a a = SF64mul (SFabs a) (SFabs a).
Proof. unfold SF64mul, SFmul. now destruct a as [[]|[]| |[] m e]. Qed.

Lemma square_of_difference (a b : float) : (a - b) * (a - b) = (b - a) * (b - a).
Proof.
  apply Prim2SF_inj. rewrite !mul_spec, !sub_spec.
  rewrite SFmul_square, (SFmul_square (SF64sub (Prim2SF b) _)).
  now rewrite SFabs_sub.
Qed.

End DistanceFacts.

(** X15.  [_calculateDistance] is symmetric: both orders of the two points
    give the same number, bit for bit. *)
Theorem distance_is_symmetric (point1 point2 : City) :
  _calculateDistance point1 point2 = _calculateDistance point2 point1.
Proof.
  unfold _calculateDistance.
  now rewrite (DistanceFacts.square_of_difference (city_x point1)),
    (DistanceFacts.square_of_difference (city_y point1)).
Qed.

(** ** The page's colouring *)









(** ** The page's satisfiability search *)







(** ** Generated problems *)
















